(** * FlagWaver: the flag layer over the cloth simulator

    A shallow embedding of
    [src/assets/js/flagwaver/helpers/buildRectangularFlagFromMedia.js]
    (sizing of a flag from its media and options) and of
    [subjects/Flag] (cloth construction, pinning, anti-stretch
    constraints and the per-frame update), with the properties the
    specification states about them.

    JavaScript numbers are modelled as rationals extended with the two
    infinities and NaN.  Binary rounding of doubles and the sign of zero
    are not modelled: arithmetic on finite values is exact. *)

From Stdlib Require Import String QArith Qround ZArith List Bool Lia.
Import ListNotations.

Set Implicit Arguments.

(** ** JavaScript numbers *)

Module JS.

Inductive num : Type :=
| Fin (q : Q)
| PInf
| NInf
| NaN.

Definition of_Z (z : Z) : num := Fin (inject_Z z).

Definition zero : num := of_Z 0.
Definition one : num := of_Z 1.

Definition neg (a : num) : num :=
  match a with
  | Fin q => Fin (- q)
  | PInf => NInf
  | NInf => PInf
  | NaN => NaN
  end.

(** [a + b] *)
Definition add (a b : num) : num :=
  match a, b with
  | NaN, _ | _, NaN => NaN
  | Fin x, Fin y => Fin (x + y)
  | PInf, NInf | NInf, PInf => NaN
  | PInf, _ | _, PInf => PInf
  | NInf, _ | _, NInf => NInf
  end.

(** [a - b] *)
Definition sub (a b : num) : num := add a (neg b).

(** Sign of an infinity multiplied or divided by the finite [y]. *)
Definition signed_inf (positive : bool) : num :=
  if positive then PInf else NInf.

(** [a * b] *)
Definition mul (a b : num) : num :=
  match a, b with
  | NaN, _ | _, NaN => NaN
  | Fin x, Fin y => Fin (x * y)
  | Fin x, PInf | PInf, Fin x =>
      match x ?= 0 with Eq => NaN | Gt => PInf | Lt => NInf end
  | Fin x, NInf | NInf, Fin x =>
      match x ?= 0 with Eq => NaN | Gt => NInf | Lt => PInf end
  | PInf, PInf | NInf, NInf => PInf
  | PInf, NInf | NInf, PInf => NInf
  end.

(** [a / b]: a finite value over zero is an infinity of its sign, and
    zero over zero is NaN. *)
Definition div (a b : num) : num :=
  match a, b with
  | NaN, _ | _, NaN => NaN
  | Fin x, Fin y =>
      if Qeq_bool y 0
      then match x ?= 0 with Eq => NaN | Gt => PInf | Lt => NInf end
      else Fin (x / y)
  | Fin _, PInf | Fin _, NInf => zero
  | PInf, Fin y => signed_inf (Qle_bool 0 y)
  | NInf, Fin y => signed_inf (negb (Qle_bool 0 y))
  | PInf, PInf | PInf, NInf | NInf, PInf | NInf, NInf => NaN
  end.

(** [a <= b]; every comparison with NaN is false. *)
Definition le (a b : num) : bool :=
  match a, b with
  | NaN, _ | _, NaN => false
  | Fin x, Fin y => Qle_bool x y
  | NInf, _ => true
  | _, PInf => true
  | _, _ => false
  end.

(** [a < b] *)
Definition lt (a b : num) : bool :=
  match a, b with
  | NaN, _ | _, NaN => false
  | Fin x, Fin y => negb (Qle_bool y x)
  | PInf, _ => false
  | _, NInf => false
  | _, _ => true
  end.

(** [a >= b] and [a > b] *)
Definition ge (a b : num) : bool := le b a.
Definition gt (a b : num) : bool := lt b a.

(** Truthiness of a number: zero and NaN are falsy. *)
Definition truthy (a : num) : bool :=
  match a with
  | Fin q => negb (Qeq_bool q 0)
  | PInf | NInf => true
  | NaN => false
  end.

Definition is_nan (a : num) : bool :=
  match a with NaN => true | _ => false end.

(** [Math.max(a, b)]: NaN as soon as one argument is NaN. *)
Definition Math_max (a b : num) : num :=
  if is_nan a || is_nan b then NaN
  else if lt a b then b else a.

(** [Math.min(a, b)] *)
Definition Math_min (a b : num) : num :=
  if is_nan a || is_nan b then NaN
  else if lt b a then b else a.

(** [Math.floor(a)] *)
Definition Math_floor (a : num) : num :=
  match a with
  | Fin q => of_Z (Qfloor q)
  | _ => a
  end.

(** [Math.round(a)]: the nearest integer, halves going up. *)
Definition Math_round (a : num) : num :=
  match a with
  | Fin q => of_Z (Qfloor (q + (1 # 2)))
  | _ => a
  end.

End JS.

(** ** Values held by option objects *)

(** A property value of an options object: a number, a string (such as
    ['auto']) or [undefined]. *)
Inductive value : Type :=
| VNumber (n : JS.num)
| VString (s : string)
| VUndefined.

(** The constants [Side] and [Hoisting] of [../constants], which is not
    among the sources: the four sides top, left, bottom, right, and the
    two hoistings, each a distinct value. *)
Inductive Side : Type := TOP | LEFT | BOTTOM | RIGHT.
Inductive Hoisting : Type := DEXTER | SINISTER.

(** A value compared against the [Side] constants: one of them, or any
    other value. *)
Inductive side_value : Type :=
| IsSide (s : Side)
| NotSide (v : value).

Inductive hoisting_value : Type :=
| IsHoisting (h : Hoisting)
| NotHoisting (v : value).

Definition Side_eqb (a b : Side) : bool :=
  match a, b with
  | TOP, TOP | LEFT, LEFT | BOTTOM, BOTTOM | RIGHT, RIGHT => true
  | _, _ => false
  end.

(** [v === side] *)
Definition is_side (v : side_value) (side : Side) : bool :=
  match v with
  | IsSide s => Side_eqb s side
  | NotSide _ => false
  end.

(** [v === 'auto'] *)
Definition is_auto (v : value) : bool :=
  match v with
  | VString s => String.eqb s "auto"
  | _ => false
  end.

(** [Object.assign({}, a, b)] on one property: the property of [b] when
    [b] has it, that of [a] otherwise. *)
Definition assign_field {A : Type} (a b : option A) : option A :=
  match b with
  | Some _ => b
  | None => a
  end.

(** Reading a property: [undefined] when the object lacks it. *)
Definition prop (f : option value) : value :=
  match f with
  | Some v => v
  | None => VUndefined
  end.

(** ** Loops *)

(** [for (let i = init; cond(i); i = next(i)) body(i)] over numbers.  The
    loop may not terminate (an infinite bound), hence the fuel; [None] is
    a loop still running when the fuel is spent. *)
Fixpoint for_loop {S : Type} (fuel : nat) (cond : JS.num -> bool)
    (next : JS.num -> JS.num) (body : JS.num -> S -> option S)
    (i : JS.num) (s : S) : option S :=
  match fuel with
  | O => None
  | Datatypes.S fuel' =>
      if cond i then
        match body i s with
        | Some s' => for_loop fuel' cond next body (next i) s'
        | None => None
        end
      else Some s
  end.

(** [for (let i = 0, ii = l.length; i < ii; i++) body(l[i])]: [i] is the
    current index and [count] the number of indices left. *)
Fixpoint for_index {A S : Type} (l : list A) (body : A -> S -> option S)
    (i count : nat) (s : S) : option S :=
  match count with
  | O => Some s
  | Datatypes.S count' =>
      match nth_error l i with
      | Some a =>
          match body a s with
          | Some s' => for_index l body (Datatypes.S i) count' s'
          | None => None
          end
      | None => None
      end
  end.

(** The values a [for] loop gives to its variable, when it terminates. *)
Inductive iterates (cond : JS.num -> bool) (next : JS.num -> JS.num)
  : JS.num -> list JS.num -> Prop :=
| iterates_stop i :
    cond i = false -> iterates cond next i []
| iterates_step i l :
    cond i = true -> iterates cond next (next i) l ->
    iterates cond next i (i :: l).

(** Running a loop body over the values of the loop variable. *)
Fixpoint run_body {A S : Type} (body : A -> S -> option S) (l : list A)
    (s : S) : option S :=
  match l with
  | [] => Some s
  | i :: l' =>
      match body i s with
      | Some s' => run_body body l' s'
      | None => None
      end
  end.

(** The integers [i0, i0 + s, i0 + 2s, ...], [k] of them. *)
Definition stride_from (i0 s : Z) (k : nat) : list Z :=
  map (fun j => (i0 + Z.of_nat j * s)%Z) (seq 0 k).

(** Every [s]-th index from 0 up to [n]: [0, s, 2s, ...]. *)
Definition everyNth (n s : Z) : list Z :=
  stride_from 0 s (Z.to_nat (n / s) + 1).

(** The indices [n, n - 1, ..., 1]. *)
Definition downTo1 (n : Z) : list Z := stride_from n (-1) (Z.to_nat n).

(** ** Option objects *)

(** The media a flag is built from, as far as its size is read: the
    [width]/[height] and [videoWidth]/[videoHeight] properties, with NaN
    standing for a property the element lacks ([undefined] is falsy and
    NaN in arithmetic, as NaN is), and whether it is a video element. *)
Record Element : Type := {
  width : JS.num;
  height : JS.num;
  videoWidth : JS.num;
  videoHeight : JS.num;
  isVideo : bool
}.

(** What [computeTextureArgs] hands to the texture: the mirroring and the
    rotation angle. *)
Record TextureArgs : Type := {
  reflect : bool;
  rotate : value
}.

(** A flag texture: the default white one, or the one made from an
    element and a transform by [createTextureFromElement]. *)
Inductive Texture : Type :=
| WHITE_TEXTURE
| ElementTexture (element : Element) (transform : TextureArgs).

(** The [edges] property of pin options: a string, an array, or a value
    that is neither (in particular a missing one). *)
Inductive edges_value : Type :=
| EdgesString (edge : side_value)
| EdgesArray (edges : list side_value)
| EdgesOther.

Record PinOptions : Type := {
  edges : option edges_value;
  spacing : option value
}.

(** [Object.assign({}, a, b)] on pin options; [b] is [None] for
    [undefined]. *)
Definition assign_pin (a : PinOptions) (b : option PinOptions) : PinOptions :=
  match b with
  | Some b =>
      {| edges := assign_field (edges a) (edges b);
         spacing := assign_field (spacing a) (spacing b) |}
  | None => a
  end.

Module Options.

(** The properties read from the options of [Flag] and of
    [buildRectangularFlagFromMedia]; [None] is a property the object does
    not have. *)
Record t : Type := {
  width : option value;
  height : option value;
  hoisting : option hoisting_value;
  orientation : option side_value;
  resolution : option value;
  mass : option value;
  restDistance : option value;
  rigidness : option value;
  texture : option Texture;
  pin : option PinOptions
}.

Definition empty : t :=
  {| width := None; height := None; hoisting := None; orientation := None;
     resolution := None; mass := None; restDistance := None;
     rigidness := None; texture := None; pin := None |}.

(** [Object.assign({}, a, b)] *)
Definition assign (a b : t) : t :=
  {| width := assign_field (width a) (width b);
     height := assign_field (height a) (height b);
     hoisting := assign_field (hoisting a) (hoisting b);
     orientation := assign_field (orientation a) (orientation b);
     resolution := assign_field (resolution a) (resolution b);
     mass := assign_field (mass a) (mass b);
     restDistance := assign_field (restDistance a) (restDistance b);
     rigidness := assign_field (rigidness a) (rigidness b);
     texture := assign_field (texture a) (texture b);
     pin := assign_field (pin a) (pin b) |}.

End Options.

(** Decimal literals of the sources. *)
Definition dec (n : Z) (d : positive) : JS.num := JS.Fin (n # d).

(** ** subjects/Flag *)

Section Flag.

(** The particle objects of a cloth, and the conversion of a string to a
    number that arithmetic on a string value performs. *)
Variable particle : Type.
Variable StringToNumber : string -> JS.num.

(** [isNumeric] of [../utils/TypeUtils], which is not among the
    sources. *)
Variable isNumeric : value -> bool.

(** The number a value stands for in arithmetic and comparisons. *)
Definition ToNumber (v : value) : JS.num :=
  match v with
  | VNumber n => n
  | VString s => StringToNumber s
  | VUndefined => JS.NaN
  end.

(** Modelled from the spec: the Cloth class ([../physics/Cloth] is not
    among the sources).  A cloth is a grid of [xSegments] by [ySegments]
    cells with spacing [restDistance]; it keeps the values it is
    constructed with, and [particleAt u v] is the particle of column [u]
    and row [v]. *)
Record Cloth : Type := {
  xSegments : JS.num;
  ySegments : JS.num;
  restDistance : value;
  totalMass : JS.num;
  particleAt : JS.num -> JS.num -> particle
}.

(** The particle object of each grid position. *)
Variable gridParticle : JS.num -> JS.num -> particle.

Definition new_Cloth (xSegments ySegments : JS.num) (restDistance : value)
    (mass : JS.num) : Cloth :=
  {| xSegments := xSegments; ySegments := ySegments;
     restDistance := restDistance; totalMass := mass;
     particleAt := gridParticle |}.

(** Modelled from the spec: the particle grid of a cloth has
    [(xSegments + 1) x (ySegments + 1)] particles. *)
Definition gridSize (c : Cloth) : JS.num * JS.num :=
  (JS.add (xSegments c) JS.one, JS.add (ySegments c) JS.one).

(** [new FixedConstraint(p1, p2, restDistance)] *)
Record FixedConstraint : Type := new_FixedConstraint {
  p1 : particle;
  p2 : particle;
  targetDistance : value
}.

Definition buildCloth (options : Options.t) : Cloth :=
  let width := prop (Options.width options) in
  let height := prop (Options.height options) in
  let mass := prop (Options.mass options) in
  let restDistance := prop (Options.restDistance options) in
  new_Cloth
    (JS.Math_max JS.one
       (JS.Math_round (JS.div (ToNumber width) (ToNumber restDistance))))
    (JS.Math_max JS.one
       (JS.Math_round (JS.div (ToNumber height) (ToNumber restDistance))))
    restDistance
    (JS.mul (JS.mul (ToNumber mass) (ToNumber width)) (ToNumber height)).

(** *** pin *)

Definition pin_defaults : PinOptions :=
  {| edges := Some (EdgesArray []); spacing := Some (VNumber JS.one) |}.

Definition ensureValidSpacing (spacing' : value) : JS.num :=
  if isNumeric spacing' && JS.ge (ToNumber spacing') JS.one
  then JS.Math_floor (ToNumber spacing')
  else ToNumber (prop (spacing pin_defaults)).

(** [spacing] is [options.spacing], which [pin] has set to the result of
    [ensureValidSpacing] before any call. *)
Definition pinEdge (fuel : nat) (cloth : Cloth) (pins : list particle)
    (edge : side_value) (spacing : JS.num) : option (list particle) :=
  let step i := JS.add i spacing in
  match edge with
  | IsSide TOP =>
      for_loop fuel (fun i => JS.le i (xSegments cloth)) step
        (fun i pins => Some (pins ++ [particleAt cloth i (ySegments cloth)]))
        JS.zero pins
  | IsSide LEFT =>
      for_loop fuel (fun i => JS.le i (ySegments cloth)) step
        (fun i pins => Some (pins ++ [particleAt cloth JS.zero i]))
        JS.zero pins
  | IsSide BOTTOM =>
      for_loop fuel (fun i => JS.le i (xSegments cloth)) step
        (fun i pins => Some (pins ++ [particleAt cloth i JS.zero]))
        JS.zero pins
  | IsSide RIGHT =>
      for_loop fuel (fun i => JS.le i (ySegments cloth)) step
        (fun i pins => Some (pins ++ [particleAt cloth (xSegments cloth) i]))
        JS.zero pins
  | NotSide _ => Some pins
  end.

(** [options] is [None] for a call without options ([undefined]). *)
Definition pin (fuel : nat) (cloth : Cloth) (pins : list particle)
    (options : option PinOptions) : option (list particle) :=
  let settings := assign_pin pin_defaults options in
  let settings_spacing := ensureValidSpacing (prop (spacing settings)) in
  match edges settings with
  | Some (EdgesString edge) =>
      pinEdge fuel cloth pins edge settings_spacing
  | Some (EdgesArray edges) =>
      for_index edges
        (fun edge pins => pinEdge fuel cloth pins edge settings_spacing)
        0 (length edges) pins
  | _ => Some pins
  end.

(** *** The Flag class *)

Record Flag : Type := {
  cloth : Cloth;
  pins : list particle;
  lengthConstraints : list FixedConstraint
}.

Definition Flag_defaults : Options.t :=
  {| Options.width := Some (VNumber (dec 18 10));
     Options.height := Some (VNumber (dec 12 10));
     Options.hoisting := None;
     Options.orientation := None;
     Options.resolution := None;
     Options.mass := Some (VNumber (dec 11 100));
     Options.restDistance := Some (VNumber (JS.div (dec 12 10) (JS.of_Z 10)));
     Options.rigidness := Some (VNumber JS.one);
     Options.texture := Some WHITE_TEXTURE;
     Options.pin :=
       Some {| edges := Some (EdgesArray [IsSide LEFT]); spacing := None |} |}.

(** [flag.pin(options)] *)
Definition Flag_pin (fuel : nat) (flag : Flag) (options : option PinOptions)
    : option Flag :=
  match pin fuel (cloth flag) (pins flag) options with
  | Some pins' =>
      Some {| cloth := cloth flag; pins := pins';
              lengthConstraints := lengthConstraints flag |}
  | None => None
  end.

(** [flag.unpin()] *)
Definition Flag_unpin (flag : Flag) : Flag :=
  {| cloth := cloth flag; pins := [];
     lengthConstraints := lengthConstraints flag |}.

(** [new Flag(options)], as far as the cloth, the pins and the length
    constraints go. *)
Definition new_Flag (fuel : nat) (options : Options.t) : option Flag :=
  let settings := Options.assign Flag_defaults options in
  Flag_pin fuel
    {| cloth := buildCloth settings; pins := []; lengthConstraints := [] |}
    (Options.pin settings).

Definition incr (i : JS.num) : JS.num := JS.add i JS.one.
Definition decr (i : JS.num) : JS.num := JS.sub i JS.one.

(** [flag.setLengthConstraints(hoistwardSide)] *)
Definition setLengthConstraints (fuel : nat) (flag : Flag)
    (hoistwardSide : side_value) : option Flag :=
  let c := cloth flag in
  let built :=
    if is_side hoistwardSide LEFT then
      for_loop fuel (fun v => JS.le v (ySegments c)) incr
        (fun v cs =>
           for_loop fuel (fun u => JS.lt u (xSegments c)) incr
             (fun u cs =>
                Some (cs ++ [new_FixedConstraint
                               (particleAt c u v)
                               (particleAt c (JS.add u JS.one) v)
                               (restDistance c)]))
             JS.zero cs)
        JS.zero []
    else if is_side hoistwardSide TOP then
      for_loop fuel (fun u => JS.le u (xSegments c)) incr
        (fun u cs =>
           for_loop fuel (fun v => JS.gt v JS.zero) decr
             (fun v cs =>
                Some (cs ++ [new_FixedConstraint
                               (particleAt c u v)
                               (particleAt c u (JS.sub v JS.one))
                               (restDistance c)]))
             (ySegments c) cs)
        JS.zero []
    else Some []
  in
  match built with
  | Some cs =>
      Some {| cloth := cloth flag; pins := pins flag;
              lengthConstraints := cs |}
  | None => None
  end.

(** *** The lists the loops are specified to build *)

(** A cloth whose segment counts are the integers [X] and [Y]. *)
Definition integerGrid (c : Cloth) (X Y : Z) : Prop :=
  xSegments c = JS.of_Z X /\ ySegments c = JS.of_Z Y /\
  (0 <= X)%Z /\ (0 <= Y)%Z.

(** The particles of an edge taken with stride [s], from index 0 on. *)
Definition selection (c : Cloth) (X Y s : Z) (edge : side_value)
    : list particle :=
  match edge with
  | IsSide TOP =>
      map (fun i => particleAt c (JS.of_Z i) (JS.of_Z Y)) (everyNth X s)
  | IsSide LEFT =>
      map (fun i => particleAt c (JS.of_Z 0) (JS.of_Z i)) (everyNth Y s)
  | IsSide BOTTOM =>
      map (fun i => particleAt c (JS.of_Z i) (JS.of_Z 0)) (everyNth X s)
  | IsSide RIGHT =>
      map (fun i => particleAt c (JS.of_Z X) (JS.of_Z i)) (everyNth Y s)
  | NotSide _ => []
  end.

(** The constraint between the particle at [(u, v)] and its neighbour
    towards the fly, one column further. *)
Definition horizontalLink (c : Cloth) (u v : Z) : FixedConstraint :=
  new_FixedConstraint
    (particleAt c (JS.of_Z u) (JS.of_Z v))
    (particleAt c (JS.of_Z (u + 1)) (JS.of_Z v))
    (restDistance c).

(** The constraint between the particle at [(u, v)] and its neighbour one
    row below. *)
Definition verticalLink (c : Cloth) (u v : Z) : FixedConstraint :=
  new_FixedConstraint
    (particleAt c (JS.of_Z u) (JS.of_Z v))
    (particleAt c (JS.of_Z u) (JS.of_Z (v - 1)))
    (restDistance c).

(** Row after row, each row from the hoist (column 0) to the fly. *)
Definition hoistToFly (c : Cloth) (X Y : Z) : list FixedConstraint :=
  flat_map (fun v => map (fun u => horizontalLink c u v)
                       (stride_from 0 1 (Z.to_nat X)))
    (stride_from 0 1 (Z.to_nat Y + 1)).

(** Column after column, each column from the top row ([Y]) down. *)
Definition topToBottom (c : Cloth) (X Y : Z) : list FixedConstraint :=
  flat_map (fun u => map (fun v => verticalLink c u v) (downTo1 Y))
    (stride_from 0 1 (Z.to_nat X + 1)).

(** The spacing a [pin] call works with. *)
Definition effectiveSpacing (options : option PinOptions) : JS.num :=
  ensureValidSpacing (prop (spacing (assign_pin pin_defaults options))).

(** The particles a [pin] call selects with stride [s]: those of its
    edge, or of each of its edges in turn. *)
Definition selected (c : Cloth) (X Y s : Z) (options : option PinOptions)
    : list particle :=
  match edges (assign_pin pin_defaults options) with
  | Some (EdgesString edge) => selection c X Y s edge
  | Some (EdgesArray edges) => flat_map (selection c X Y s) edges
  | _ => []
  end.

(** An edge value that is one of the four sides. *)
Definition recognized (edge : side_value) : bool :=
  match edge with
  | IsSide _ => true
  | NotSide _ => false
  end.

End Flag.

(** *** simulate *)

Section Simulate.

Variable particle : Type.

(** Two references to the same particle object. *)
Variable particle_eq_dec : forall a b : particle, {a = b} + {a <> b}.

(** three.js vectors: [simulate] only copies them. *)
Variable Vector3 : Type.

(** The vectors of a particle that the flag reads and writes. *)
Record Particle : Type := {
  position : Vector3;
  previous : Vector3;
  original : Vector3
}.

(** The particles of the cloth: the state a frame updates. *)
Definition World : Type := particle -> Particle.

(** [target.copy(source)]: the value of [target] afterwards, which is also
    what the call returns. *)
Definition copy (target source : Vector3) : Vector3 := source.

Definition update (w : World) (p : particle) (s : Particle) : World :=
  fun q => if particle_eq_dec q p then s else w q.

(** [cloth.simulate(deltaTime)] and [constraint.resolve()], of
    [../physics/Cloth] and [../physics/FixedConstraint], which are not
    among the sources: any update of the particles. *)
Variable Cloth_simulate : Cloth particle -> JS.num -> World -> World.
Variable resolve : FixedConstraint particle -> World -> World.

(** The body of the pin loop:
    [particle.previous.copy(particle.position.copy(particle.original))]. *)
Definition pinParticle (p : particle) (w : World) : World :=
  let position' := copy (position (w p)) (original (w p)) in
  let previous' := copy (previous (w p)) position' in
  update w p {| position := position'; previous := previous';
                original := original (w p) |}.

(** [flag.simulate(deltaTime)]; [None] would be a loop reading past the
    end of its array. *)
Definition simulate (flag : Flag particle) (deltaTime : JS.num) (w : World)
    : option World :=
  let pins := pins flag in
  let lengthConstraints := lengthConstraints flag in
  let w := Cloth_simulate (cloth flag) deltaTime w in
  match for_index pins (fun p w => Some (pinParticle p w))
          0 (length pins) w with
  | Some w =>
      for_index lengthConstraints (fun c w => Some (resolve c w))
        0 (length lengthConstraints) w
  | None => None
  end.

(** The state between the pin loop and the length constraints. *)
Definition simulate_pinned (flag : Flag particle) (deltaTime : JS.num)
    (w : World) : World :=
  fold_left (fun w p => pinParticle p w) (pins flag)
    (Cloth_simulate (cloth flag) deltaTime w).

End Simulate.

(** ** helpers/buildRectangularFlagFromMedia *)

Section BuildRectangularFlagFromMedia.

Variable particle : Type.
Variable StringToNumber : string -> JS.num.
Variable isNumeric : value -> bool.
Variable gridParticle : JS.num -> JS.num -> particle.

(** [getAngleOfSide] of [../utils/getAngleOfSide], which is not among the
    sources. *)
Variable getAngleOfSide : side_value -> value.

Local Abbreviation ToNumber := (ToNumber StringToNumber).

(** Maximum size of flag *)
Definition maxSize : JS.num := JS.of_Z 500.

Definition defaults : Options.t :=
  {| Options.width := Some (VString "auto");
     Options.height := Some (VString "auto");
     Options.hoisting := Some (IsHoisting DEXTER);
     Options.orientation := Some (IsSide TOP);
     Options.resolution := Some (VNumber (JS.of_Z 256));
     Options.mass := None;
     Options.restDistance := None;
     Options.rigidness := None;
     Options.texture := None;
     Options.pin := None |}.

(** [a || b] on numbers *)
Definition or_else (a b : JS.num) : JS.num :=
  if JS.truthy a then a else b.

(** Calculate width and/or height from image if either is set to 'auto' *)
Definition computeSizeFromElement (element : Element) (options : Options.t)
    : value * value :=
  let elementWidth := or_else (width element) (videoWidth element) in
  let elementHeight := or_else (height element) (videoHeight element) in
  let options_width := prop (Options.width options) in
  let options_height := prop (Options.height options) in
  if is_auto options_width && is_auto options_height then
    let crossWidth := ToNumber (prop (Options.height Flag_defaults)) in
    if JS.lt elementWidth elementHeight then
      (VNumber crossWidth,
       VNumber (JS.div (JS.mul crossWidth elementHeight) elementWidth))
    else
      (VNumber (JS.div (JS.mul crossWidth elementWidth) elementHeight),
       VNumber crossWidth)
  else if is_auto options_width && isNumeric options_height then
    (VNumber (JS.div (JS.mul (ToNumber options_height) elementWidth)
                elementHeight),
     options_height)
  else if isNumeric options_width && is_auto options_height then
    (options_width,
     VNumber (JS.div (JS.mul (ToNumber options_width) elementHeight)
                elementWidth))
  else
    (options_width, options_height).

(** Compute a numeric width and height from options *)
Definition computeSize (element : option Element) (options : Options.t)
    : value * value :=
  let '(width, height) :=
    match element with
    | Some element => computeSizeFromElement element options
    | None => (prop (Options.width options), prop (Options.height options))
    end in
  if isNumeric width && isNumeric height then
    let scale :=
      JS.Math_min JS.one
        (JS.div maxSize (JS.Math_max (ToNumber width) (ToNumber height))) in
    (VNumber (JS.mul (ToNumber width) scale),
     VNumber (JS.mul (ToNumber height) scale))
  else
    (prop (Options.width Flag_defaults), prop (Options.height Flag_defaults)).

(** Check if flag has been rotated into a vertical position *)
Definition isVertical (options : Options.t) : bool :=
  match Options.orientation options with
  | Some o => is_side o LEFT || is_side o RIGHT
  | None => false
  end.

(** Compute values needed to apply texture onto mesh *)
Definition computeTextureArgs (options : Options.t) : TextureArgs :=
  {| reflect :=
       match Options.hoisting options with
       | Some (IsHoisting SINISTER) => true
       | _ => false
       end;
     rotate :=
       getAngleOfSide
         match Options.orientation options with
         | Some o => o
         | None => NotSide VUndefined
         end |}.

(** Compute values needed to create new flag *)
Definition computeFlagArgs (element : option Element) (options : Options.t)
    : Options.t :=
  let vertical := isVertical options in
  {| Options.width :=
       if vertical then Some (prop (Options.height options))
       else Options.width options;
     Options.height :=
       if vertical then Some (prop (Options.width options))
       else Options.height options;
     Options.hoisting := Options.hoisting options;
     Options.orientation := Options.orientation options;
     Options.resolution := Options.resolution options;
     Options.mass := Options.mass options;
     Options.restDistance := Options.restDistance options;
     Options.rigidness := Options.rigidness options;
     Options.texture :=
       match element with
       | Some element =>
           Some (ElementTexture element (computeTextureArgs options))
       | None => Options.texture options
       end;
     Options.pin := Options.pin options |}.

(** The options after [Object.assign(settings, computeSize(element,
    settings))]. *)
Definition with_size (settings : Options.t) (size : value * value)
    : Options.t :=
  Options.assign settings
    {| Options.width := Some (fst size); Options.height := Some (snd size);
       Options.hoisting := None; Options.orientation := None;
       Options.resolution := None; Options.mass := None;
       Options.restDistance := None; Options.rigidness := None;
       Options.texture := None; Options.pin := None |}.

(** The arguments [buildRectangularFlagFromMedia] constructs the flag
    with. *)
Definition flagArgs (element : option Element) (options : Options.t)
    : Options.t :=
  let settings := Options.assign defaults options in
  let settings := with_size settings (computeSize element settings) in
  computeFlagArgs element settings.

(** [buildRectangularFlagFromMedia(element, options)].  For a video
    element the flag is a [VideoFlag] ([../subjects/VideoFlag], not among
    the sources), taken to construct its cloth, pins and constraints as
    the [Flag] it extends does. *)
Definition buildRectangularFlagFromMedia (fuel : nat)
    (element : option Element) (options : Options.t)
    : option (Flag particle) :=
  new_Flag StringToNumber isNumeric gridParticle fuel
    (flagArgs element options).

(** The cloth of that flag: the one its constructor builds from the
    arguments. *)
Definition flagCloth (element : option Element) (options : Options.t)
    : Cloth particle :=
  buildCloth StringToNumber gridParticle
    (Options.assign Flag_defaults (flagArgs element options)).

End BuildRectangularFlagFromMedia.

(** Options differing in their [orientation], or in their [hoisting],
    only. *)
Definition withOrientation (options : Options.t) (side : side_value)
    : Options.t :=
  {| Options.width := Options.width options;
     Options.height := Options.height options;
     Options.hoisting := Options.hoisting options;
     Options.orientation := Some side;
     Options.resolution := Options.resolution options;
     Options.mass := Options.mass options;
     Options.restDistance := Options.restDistance options;
     Options.rigidness := Options.rigidness options;
     Options.texture := Options.texture options;
     Options.pin := Options.pin options |}.

Definition withHoisting (options : Options.t) (hoisting : hoisting_value)
    : Options.t :=
  {| Options.width := Options.width options;
     Options.height := Options.height options;
     Options.hoisting := Some hoisting;
     Options.orientation := Options.orientation options;
     Options.resolution := Options.resolution options;
     Options.mass := Options.mass options;
     Options.restDistance := Options.restDistance options;
     Options.rigidness := Options.rigidness options;
     Options.texture := Options.texture options;
     Options.pin := Options.pin options |}.

(** ** Instances used in the examples *)

(** Particles named by their grid coordinates. *)
Definition gridRef : Type := (JS.num * JS.num)%type.

Definition num_eq_dec (a b : JS.num) : {a = b} + {a <> b}.
Proof.
  decide equality. decide equality.
  - apply Pos.eq_dec.
  - apply Z.eq_dec.
Defined.

Definition gridRef_eq_dec (a b : gridRef) : {a = b} + {a <> b}.
Proof. decide equality; apply num_eq_dec. Defined.

Definition gridRef_of : JS.num -> JS.num -> gridRef := pair.

(** A conversion for option objects that hold no numeric string: a string
    without digits converts to NaN. *)
Definition NaNString : string -> JS.num := fun _ => JS.NaN.

(** An [isNumeric] accepting exactly the finite numbers. *)
Definition isFiniteNumber (v : value) : bool :=
  match v with
  | VNumber (JS.Fin _) => true
  | _ => false
  end.

(** Options holding only a width, a height and a rest distance. *)
Definition sizeOptions (w h r : JS.num) : Options.t :=
  {| Options.width := Some (VNumber w); Options.height := Some (VNumber h);
     Options.hoisting := None; Options.orientation := None;
     Options.resolution := None; Options.mass := None;
     Options.restDistance := Some (VNumber r); Options.rigidness := None;
     Options.texture := None; Options.pin := None |}.

(** A cloth of [x] by [y] segments with rest distance 1, over particles
    named by their coordinates. *)
Definition gridCloth (x y : Z) : Cloth gridRef :=
  new_Cloth gridRef_of (JS.of_Z x) (JS.of_Z y) (VNumber JS.one) JS.one.

(** The particle at column [u] and row [v]. *)
Definition at_ (u v : Z) : gridRef := (JS.of_Z u, JS.of_Z v).

(** Pin options naming edges, with the default spacing. *)
Definition pinEdges (es : list side_value) : option PinOptions :=
  Some {| edges := Some (EdgesArray es); spacing := None |}.

(** Vectors with rational coordinates, kept in lowest terms. *)
Definition vec : Type := (Q * Q * Q)%type.

Definition vec_of (x y z : Q) : vec := (Qred x, Qred y, Qred z).

Definition vadd (a b : vec) : vec :=
  let '(ax, ay, az) := a in
  let '(bx, by_, bz) := b in
  vec_of (ax + bx) (ay + by_) (az + bz).

Definition vsub (a b : vec) : vec :=
  let '(ax, ay, az) := a in
  let '(bx, by_, bz) := b in
  vec_of (ax - bx) (ay - by_) (az - bz).

Definition vscale (k : Q) (a : vec) : vec :=
  let '(ax, ay, az) := a in
  vec_of (k * ax) (k * ay) (k * az).

(** The square root, exact on the squares of rationals and rounded down
    on the numerator and the denominator elsewhere. *)
Definition Qsqrt (q : Q) : Q :=
  let r := Qred q in
  Z.sqrt (Qnum r) # Pos.sqrt (Qden r).

Definition vlength (a : vec) : Q :=
  let '(ax, ay, az) := a in
  Qsqrt (ax * ax + ay * ay + az * az).

(** [position === original], coordinate by coordinate. *)
Definition vec_eqb (a b : vec) : bool :=
  let '(ax, ay, az) := a in
  let '(bx, by_, bz) := b in
  Qeq_bool ax bx && Qeq_bool ay by_ && Qeq_bool az bz.

(** Modelled from the spec: DistanceConstraint.resolve (section 4.2;
    [../physics/FixedConstraint] is not among the sources).  The vector
    between the two particles is compared with the target length and
    each endpoint moves along it to reduce the discrepancy, the
    correction being split by effective mass: equally between two free
    particles of the same mass, wholly onto a free particle facing a
    pinned one, and not at all between two pinned particles.  [pinned]
    tells the particles that carry the pinned flag. *)
Definition resolve_spec (pinned : gridRef -> bool)
    (c : FixedConstraint gridRef) (w : World gridRef vec)
    : World gridRef vec :=
  match targetDistance c with
  | VNumber (JS.Fin target) =>
      let a := w (p1 c) in
      let b := w (p2 c) in
      let diff := vsub (position b) (position a) in
      let d := vlength diff in
      if Qeq_bool d 0 then w
      else
        let correction := vscale ((d - target) / d) diff in
        let move (p : gridRef) (k : Q) (w : World gridRef vec) :=
          update gridRef_eq_dec w p
            {| position := vadd (position (w p)) (vscale k correction);
               previous := previous (w p);
               original := original (w p) |} in
        match pinned (p1 c), pinned (p2 c) with
        | true, true => w
        | true, false => move (p2 c) (-(1)) w
        | false, true => move (p1 c) 1 w
        | false, false => move (p2 c) (-(1 # 2)) (move (p1 c) (1 # 2) w)
        end
  | _ => w
  end.

(** A stand-in for [cloth.simulate(deltaTime)]: every particle is carried
    by the same displacement, as by a uniform wind. *)
Definition carried (d : vec) (c : Cloth gridRef) (deltaTime : JS.num)
    (w : World gridRef vec) : World gridRef vec :=
  fun p =>
    {| position := vadd (position (w p)) d;
       previous := position (w p);
       original := original (w p) |}.

(** The particles at rest: the particle of column [u] and row [v] is at
    [(u, v, 0)]. *)
Definition atRest : World gridRef vec :=
  fun p =>
    let coordinate (n : JS.num) :=
      match n with JS.Fin q => q | _ => 0 end in
    let r := vec_of (coordinate (fst p)) (coordinate (snd p)) 0 in
    {| position := r; previous := r; original := r |}.

(** The particles that are in a list. *)
Definition memberOf (l : list gridRef) (p : gridRef) : bool :=
  if in_dec gridRef_eq_dec p l then true else false.

(** A flag over [gridCloth x y] with the given pins and no length
    constraint yet. *)
Definition gridFlag (x y : Z) (pins : list gridRef) : Flag gridRef :=
  {| cloth := gridCloth x y; pins := pins; lengthConstraints := [] |}.

(** The link from [a] to [b] with target length 1. *)
Definition link (a b : gridRef) : FixedConstraint gridRef :=
  new_FixedConstraint a b (VNumber JS.one).

(** An image of 300 by 200 pixels. *)
Definition image300x200 : Element :=
  {| width := JS.of_Z 300; height := JS.of_Z 200;
     videoWidth := JS.NaN; videoHeight := JS.NaN; isVideo := false |}.

(** An angle for each orientation; the cloth does not depend on it. *)
Definition noAngle : side_value -> value := fun _ => VUndefined.

(** ** Further functions of the helper *)

Section ScaleImage.

Variable StringToNumber : string -> JS.num.

(** Generate transformed texture from image using HTML canvas: the width
    and the height given to the canvas the image is drawn into. *)
Definition scaleImage (image : Element) (options : Options.t)
    : JS.num * JS.num :=
  let srcWidth := width image in
  let srcHeight := height image in
  (* Downscale textures that exceed max resolution *)
  let scale :=
    JS.Math_min JS.one
      (JS.div
         (JS.mul (ToNumber StringToNumber (prop (Options.height options)))
            (ToNumber StringToNumber (prop (Options.resolution options))))
         srcHeight) in
  let destWidth := JS.Math_round (JS.mul srcWidth scale) in
  let destHeight := JS.Math_round (JS.mul srcHeight scale) in
  (destWidth, destHeight).

End ScaleImage.

(** The width and height [computeSize] starts from: those computed from
    the element when there is one, the options' own otherwise. *)
Definition requestedSize (StringToNumber : string -> JS.num)
    (isNumeric : value -> bool) (element : option Element)
    (options : Options.t) : value * value :=
  match element with
  | Some element =>
      computeSizeFromElement StringToNumber isNumeric element options
  | None => (prop (Options.width options), prop (Options.height options))
  end.

(** The state the pin loop leaves a particle in: at rest at its
    original. *)
Definition atOriginal {Vector3 : Type} (s : Particle Vector3)
    : Particle Vector3 :=
  {| position := original s; previous := original s;
     original := original s |}.

(** * Properties *)

(** ** Facts on numbers *)

Module JSFacts.
Import JS.

Lemma add_of_Z (a b : Z) : add (of_Z a) (of_Z b) = of_Z (a + b).
Proof.
  unfold add, of_Z, inject_Z, Qplus; simpl.
  now rewrite !Z.mul_1_r.
Qed.

Lemma sub_of_Z (a b : Z) : sub (of_Z a) (of_Z b) = of_Z (a - b).
Proof.
  unfold sub, neg, add, of_Z, inject_Z, Qplus, Qopp; simpl.
  rewrite !Z.mul_1_r. reflexivity.
Qed.

Lemma le_of_Z (a b : Z) : le (of_Z a) (of_Z b) = (a <=? b)%Z.
Proof.
  unfold le, of_Z, inject_Z, Qle_bool; simpl.
  now rewrite !Z.mul_1_r.
Qed.

Lemma lt_of_Z (a b : Z) : lt (of_Z a) (of_Z b) = (a <? b)%Z.
Proof.
  unfold lt, of_Z, inject_Z, Qle_bool; simpl.
  rewrite !Z.mul_1_r. now rewrite Z.ltb_antisym.
Qed.

Lemma gt_of_Z (a b : Z) : gt (of_Z a) (of_Z b) = (b <? a)%Z.
Proof. apply lt_of_Z. Qed.

Lemma of_Z_inj (a b : Z) : of_Z a = of_Z b -> a = b.
Proof. unfold of_Z, inject_Z. now intros [= ->]. Qed.

(** [Math.max(1, x)] is [1] or [x], the latter only above [1]. *)
Lemma Math_max_one_cases (x : num) :
  Math_max one x = NaN /\ x = NaN \/
  Math_max one x = one /\ lt one x = false /\ x <> NaN \/
  Math_max one x = x /\ lt one x = true.
Proof.
  unfold Math_max. destruct x; simpl; auto.
  - destruct (negb (Qle_bool q (inject_Z 1))) eqn:E.
    + right; right; split; reflexivity.
    + right; left; repeat split; try reflexivity; discriminate.
  - right; left; repeat split; discriminate.
Qed.

Lemma lt_le_incl (a b : num) : lt a b = true -> le a b = true.
Proof.
  destruct a, b; simpl; try reflexivity; try discriminate.
  intros H. apply negb_true_iff in H.
  apply Qle_bool_iff. destruct (Qlt_le_dec q q0) as [L|L].
  - now apply Qlt_le_weak.
  - apply Qle_bool_iff in L. congruence.
Qed.

End JSFacts.

(** ** Facts on loops *)

Lemma for_loop_iterates {S : Type} cond next (body : JS.num -> S -> option S)
    i l :
  iterates cond next i l ->
  forall fuel s, (length l < fuel)%nat ->
    for_loop fuel cond next body i s = run_body body l s.
Proof.
  induction 1 as [i Hc | i l Hc _ IH]; intros fuel s Hfuel.
  - destruct fuel as [|fuel]; [simpl in Hfuel; lia|].
    simpl. now rewrite Hc.
  - destruct fuel as [|fuel]; [simpl in Hfuel; lia|].
    simpl. rewrite Hc. destruct (body i s) as [s'|]; [|reflexivity].
    apply IH. simpl in Hfuel. lia.
Qed.

Lemma for_index_run {A S : Type} (body : A -> S -> option S) (l2 l1 : list A)
    (s : S) :
  for_index (l1 ++ l2) body (length l1) (length l2) s = run_body body l2 s.
Proof.
  revert l1 s. induction l2 as [|a l2 IH]; intros l1 s; simpl.
  - reflexivity.
  - rewrite nth_error_app2 by lia. rewrite Nat.sub_diag. simpl.
    destruct (body a s) as [s'|]; [|reflexivity].
    replace (l1 ++ a :: l2) with ((l1 ++ [a]) ++ l2)
      by (now rewrite <- app_assoc).
    replace (Datatypes.S (length l1)) with (length (l1 ++ [a]))
      by (rewrite length_app; simpl; lia).
    apply IH.
Qed.

Lemma for_index_all {A S : Type} (body : A -> S -> option S) (l : list A)
    (s : S) :
  for_index l body 0 (length l) s = run_body body l s.
Proof. exact (for_index_run body l [] s). Qed.

(** A body that appends [f i] to a list, run over [l], appends
    [flat_map f l]. *)
Lemma run_body_append {A B : Type} (body : A -> list B -> option (list B))
    (f : A -> list B) (l : list A) :
  (forall i acc, In i l -> body i acc = Some (acc ++ f i)) ->
  forall acc, run_body body l acc = Some (acc ++ flat_map f l).
Proof.
  induction l as [|i l IH]; intros Hbody acc; simpl.
  - now rewrite app_nil_r.
  - rewrite Hbody by now left.
    rewrite IH by (intros; apply Hbody; now right).
    now rewrite app_assoc.
Qed.

Lemma stride_from_S i0 s k :
  stride_from i0 s (Datatypes.S k) = i0 :: stride_from (i0 + s) s k.
Proof.
  unfold stride_from. simpl. f_equal; [lia|].
  rewrite <- seq_shift, map_map.
  apply map_ext. intros j. lia.
Qed.

(** A counting loop on integers: a condition that reads [i <= n] on the
    integers and a step adding [s >= 1] visit [i0, i0 + s, ...] up to
    [n]. *)
Lemma iterates_stride cond next (n s : Z) :
  (forall z, cond (JS.of_Z z) = (z <=? n)%Z) ->
  (forall z, next (JS.of_Z z) = JS.of_Z (z + s)) ->
  (1 <= s)%Z ->
  forall k i0,
    (n < i0 + Z.of_nat k * s)%Z ->
    (k = O \/ i0 + (Z.of_nat k - 1) * s <= n)%Z ->
    iterates cond next (JS.of_Z i0) (map JS.of_Z (stride_from i0 s k)).
Proof.
  intros Hcond Hnext Hs.
  induction k as [|k IH]; intros i0 Hhi Hlo.
  - apply iterates_stop. rewrite Hcond. apply Z.leb_gt. lia.
  - rewrite stride_from_S. simpl. apply iterates_step.
    + rewrite Hcond. apply Z.leb_le.
      destruct Hlo as [Hlo|Hlo]; [discriminate|]. nia.
    + rewrite Hnext. apply IH.
      * lia.
      * destruct k as [|k]; [now left|right].
        destruct Hlo as [Hlo|Hlo]; [discriminate|]. lia.
Qed.

(** ** buildCloth *)

Section BuildClothFacts.

Variable particle : Type.
Variable StringToNumber : string -> JS.num.
Variable gridParticle : JS.num -> JS.num -> particle.

Local Abbreviation ToNumber := (ToNumber StringToNumber).
Local Abbreviation cloth_of := (buildCloth StringToNumber gridParticle).

(** The number of segments for an extent [w] and a spacing [r]. *)
Local Abbreviation segments w r :=
  (JS.Math_max JS.one (JS.Math_round (JS.div w r))).

Lemma Math_round_not_NaN (x : JS.num) :
  x <> JS.NaN -> JS.Math_round x <> JS.NaN.
Proof. destruct x; unfold JS.Math_round, JS.of_Z; congruence. Qed.

Lemma segments_at_least_one (w r : JS.num) :
  JS.div w r <> JS.NaN -> JS.le JS.one (segments w r) = true.
Proof.
  intros Hq. apply Math_round_not_NaN in Hq.
  destruct (JSFacts.Math_max_one_cases (JS.Math_round (JS.div w r)))
    as [[_ E] | [[E _] | [E L]]].
  - contradiction.
  - rewrite E. reflexivity.
  - rewrite E. now apply JSFacts.lt_le_incl.
Qed.

Lemma segments_finite (w r : Q) :
  Qeq_bool r 0 = false ->
  segments (JS.Fin w) (JS.Fin r)
  = JS.of_Z (Z.max 1 (Qfloor (w / r + (1 # 2)))).
Proof.
  intros Hr. unfold JS.div. rewrite Hr. unfold JS.Math_round.
  unfold JS.Math_max, JS.one. simpl JS.is_nan. simpl orb. cbv iota.
  rewrite JSFacts.lt_of_Z.
  destruct (Z.ltb_spec 1 (Qfloor (w / r + (1 # 2)))).
  - f_equal. lia.
  - f_equal. lia.
Qed.

Lemma segments_zero_spacing (w r : Q) :
  Qeq_bool r 0 = true ->
  segments (JS.Fin w) (JS.Fin r)
  = match w ?= 0 with
    | Gt => JS.PInf
    | Eq => JS.NaN
    | Lt => JS.one
    end.
Proof.
  intros Hr. unfold JS.div. rewrite Hr.
  destruct (w ?= 0); reflexivity.
Qed.

(** C6 (as amended).  [buildCloth] constructs the cloth with
    [Math.max(1, Math.round(width / restDistance))] by
    [Math.max(1, Math.round(height / restDistance))] segments; whenever the
    quotient is a number (not NaN) the segment count is at least 1; and for
    width 1.8, height 1.2 and rest distance 0.12 the counts are 15 by 10,
    a grid of 16 by 11 particles. *)
Theorem buildCloth_segment_counts (options : Options.t) :
  let w := ToNumber (prop (Options.width options)) in
  let h := ToNumber (prop (Options.height options)) in
  let r := ToNumber (prop (Options.restDistance options)) in
  let c := cloth_of options in
  xSegments c = segments w r /\
  ySegments c = segments h r /\
  (JS.div w r <> JS.NaN -> JS.le JS.one (xSegments c) = true) /\
  (JS.div h r <> JS.NaN -> JS.le JS.one (ySegments c) = true) /\
  (w = dec 18 10 -> h = dec 12 10 -> r = dec 12 100 ->
   xSegments c = JS.of_Z 15 /\ ySegments c = JS.of_Z 10 /\
   gridSize c = (JS.of_Z 16, JS.of_Z 11)).
Proof.
  intros w h r c. subst c. unfold buildCloth, gridSize.
  simpl xSegments. simpl ySegments. fold w h r.
  split; [reflexivity|]. split; [reflexivity|].
  split; [apply segments_at_least_one|].
  split; [apply segments_at_least_one|].
  intros -> -> ->. repeat split; vm_compute; reflexivity.
Qed.

Lemma Math_max_one_of_Z (z : Z) :
  JS.Math_max JS.one (JS.of_Z z) = JS.of_Z (Z.max 1 z).
Proof.
  unfold JS.Math_max, JS.one. simpl JS.is_nan. simpl orb. cbv iota.
  rewrite JSFacts.lt_of_Z.
  destruct (Z.ltb_spec 1 z); f_equal; lia.
Qed.

(** The counts [Math.max(1, Math.round(q))] can take. *)
Lemma segments_shape (q : JS.num) :
  let n := JS.Math_max JS.one (JS.Math_round q) in
  ((exists z : Z, (1 <= z)%Z /\ n = JS.of_Z z) \/
   n = JS.PInf \/ n = JS.NaN) /\
  (q = JS.PInf -> n = JS.PInf) /\
  (q = JS.NInf -> n = JS.one) /\
  (q = JS.NaN -> n = JS.NaN).
Proof.
  destruct q as [x | | |]; cbv zeta.
  - unfold JS.Math_round. rewrite Math_max_one_of_Z.
    split; [|repeat split; discriminate].
    left. eexists. split; [|reflexivity]. lia.
  - repeat split; try discriminate. right; left; reflexivity.
  - repeat split; try discriminate. left. exists 1%Z. now split.
  - repeat split; try discriminate. right; right; reflexivity.
Qed.

Lemma segments_zero_divisor (x r : Q) :
  r == 0 ->
  (x == 0 -> segments (JS.Fin x) (JS.Fin r) = JS.NaN) /\
  (~ x == 0 ->
   segments (JS.Fin x) (JS.Fin r) = JS.PInf \/
   segments (JS.Fin x) (JS.Fin r) = JS.one).
Proof.
  intros Hr. apply Qeq_bool_iff in Hr.
  rewrite (@segments_zero_spacing x r Hr).
  destruct (x ?= 0) eqn:E.
  - split; [reflexivity|]. intros Hx. apply Qeq_alt in E. contradiction.
  - split; [|now right]. intros Hx. apply Qeq_alt in Hx. congruence.
  - split; [|now left]. intros Hx. apply Qeq_alt in Hx. congruence.
Qed.

Lemma segments_zero_extent (x r : Q) :
  ~ r == 0 -> x == 0 -> segments (JS.Fin x) (JS.Fin r) = JS.one.
Proof.
  intros Hr Hx.
  assert (Er : Qeq_bool r 0 = false).
  { destruct (Qeq_bool r 0) eqn:E; [|reflexivity].
    apply Qeq_bool_iff in E. contradiction. }
  rewrite (@segments_finite x r Er).
  assert (E0 : Qfloor (x / r + (1 # 2)) = 0%Z).
  { transitivity (Qfloor (1 # 2)); [|reflexivity].
    apply Qfloor_comp. rewrite Hx. field. exact Hr. }
  now rewrite E0.
Qed.

(** C7 (as amended).  [buildCloth] neither rejects nor clamps the rest
    distance: it clamps each segment count from below only, so that the
    count handed to the cloth is an integer that is at least 1,
    [Infinity] or NaN, the last two being passed on as they are.  A zero
    extent over a non-zero rest distance gives one segment; over a zero
    rest distance the count is NaN for a zero extent and, for any other
    extent, comes from an infinite quotient: [Infinity], or 1 when the
    quotient is negative. *)
Theorem buildCloth_rest_distance_unchecked (options : Options.t) :
  let w := ToNumber (prop (Options.width options)) in
  let h := ToNumber (prop (Options.height options)) in
  let r := ToNumber (prop (Options.restDistance options)) in
  let c := cloth_of options in
  let count (n : JS.num) :=
    (exists z : Z, (1 <= z)%Z /\ n = JS.of_Z z) \/
    n = JS.PInf \/ n = JS.NaN in
  count (xSegments c) /\ count (ySegments c) /\
  (forall rq : Q, r = JS.Fin rq -> rq == 0 ->
     (forall wq : Q, w = JS.Fin wq ->
        (wq == 0 -> xSegments c = JS.NaN) /\
        (~ wq == 0 -> xSegments c = JS.PInf \/ xSegments c = JS.one)) /\
     (forall hq : Q, h = JS.Fin hq ->
        (hq == 0 -> ySegments c = JS.NaN) /\
        (~ hq == 0 -> ySegments c = JS.PInf \/ ySegments c = JS.one))) /\
  (forall rq : Q, r = JS.Fin rq -> ~ rq == 0 ->
     (forall wq : Q, w = JS.Fin wq -> wq == 0 -> xSegments c = JS.one) /\
     (forall hq : Q, h = JS.Fin hq -> hq == 0 -> ySegments c = JS.one)).
Proof.
  intros w h r c count. subst c. unfold buildCloth.
  simpl xSegments. simpl ySegments. fold w h r.
  split; [apply (segments_shape (JS.div w r))|].
  split; [apply (segments_shape (JS.div h r))|].
  split.
  - intros rq -> Hr. split.
    + intros wq ->. now apply segments_zero_divisor.
    + intros hq ->. now apply segments_zero_divisor.
  - intros rq -> Hr. split.
    + intros wq ->. now apply segments_zero_extent.
    + intros hq ->. now apply segments_zero_extent.
Qed.

End BuildClothFacts.

(** C6, the claim as stated fails: with a zero width and a zero rest
    distance the quotient is NaN and so is the segment count, which is
    not at least 1. *)
Lemma buildCloth_segments_NaN :
  let c := buildCloth NaNString gridRef_of
             (sizeOptions JS.zero (dec 12 10) JS.zero) in
  xSegments c = JS.NaN /\ JS.le JS.one (xSegments c) = false.
Proof. split; reflexivity. Qed.

Lemma buildCloth_segment_counts_witness :
  let c := buildCloth NaNString gridRef_of
             (sizeOptions (dec 18 10) (dec 12 10) (dec 12 100)) in
  JS.le JS.one (xSegments c) = true /\
  JS.le JS.one (ySegments c) = true /\
  xSegments c = JS.of_Z 15 /\ ySegments c = JS.of_Z 10 /\
  gridSize c = (JS.of_Z 16, JS.of_Z 11).
Proof.
  destruct (buildCloth_segment_counts NaNString gridRef_of
              (sizeOptions (dec 18 10) (dec 12 10) (dec 12 100)))
    as (_ & _ & Hx & Hy & Hex).
  split; [apply Hx; discriminate|].
  split; [apply Hy; discriminate|].
  apply Hex; reflexivity.
Defined.

(** C7, the claim as stated fails: a rest distance of zero is neither
    rejected nor clamped, and both segment counts are [Infinity]. *)
Lemma buildCloth_zero_rest_distance :
  let c := buildCloth NaNString gridRef_of
             (sizeOptions (dec 18 10) (dec 12 10) JS.zero) in
  xSegments c = JS.PInf /\ ySegments c = JS.PInf.
Proof. split; reflexivity. Qed.

Lemma buildCloth_rest_distance_unchecked_witness :
  (let c := buildCloth NaNString gridRef_of
              (sizeOptions (dec 18 10) JS.zero JS.zero) in
   (xSegments c = JS.PInf \/ xSegments c = JS.one) /\
   ySegments c = JS.NaN) /\
  (let c := buildCloth NaNString gridRef_of
              (sizeOptions JS.zero (dec 12 10) (dec 12 100)) in
   xSegments c = JS.one).
Proof.
  split.
  - destruct (buildCloth_rest_distance_unchecked NaNString gridRef_of
                (sizeOptions (dec 18 10) JS.zero JS.zero))
      as (_ & _ & Hzero & _).
    destruct (Hzero 0 eq_refl (Qeq_refl 0)) as [Hx Hy].
    split.
    + apply (Hx (18 # 10) eq_refl). discriminate.
    + apply (Hy 0 eq_refl). reflexivity.
  - destruct (buildCloth_rest_distance_unchecked NaNString gridRef_of
                (sizeOptions JS.zero (dec 12 10) (dec 12 100)))
      as (_ & _ & _ & Hclamp).
    destruct (Hclamp (12 # 100) eq_refl) as [Hx _]; [discriminate|].
    apply (Hx 0 eq_refl). reflexivity.
Defined.

(** ** Counting loops *)

Lemma run_body_push {A B : Type} (g : A -> B) (l : list A) (acc : list B) :
  run_body (fun i acc => Some (acc ++ [g i])) l acc = Some (acc ++ map g l).
Proof.
  rewrite (run_body_append (fun i acc => Some (acc ++ [g i]))
             (fun i => [g i]) l) by reflexivity.
  replace (flat_map (fun i => [g i]) l) with (map g l); [reflexivity|].
  induction l as [|a l IH]; simpl; congruence.
Qed.

Lemma everyNth_bounds (n s : Z) :
  (0 <= n)%Z -> (1 <= s)%Z ->
  let k := (Z.to_nat (n / s) + 1)%nat in
  (n < 0 + Z.of_nat k * s)%Z /\
  (0 + (Z.of_nat k - 1) * s <= n)%Z /\
  (k <= Z.to_nat n + 1)%nat.
Proof.
  intros Hn Hs k. subst k.
  assert (Hq : (0 <= n / s)%Z) by (apply Z.div_pos; lia).
  assert (Hle : (s * (n / s) <= n)%Z) by (apply Z.mul_div_le; lia).
  assert (Hgt : (n < s * Z.succ (n / s))%Z)
    by (apply Z.mul_succ_div_gt; lia).
  assert (Hqn : (n / s <= n)%Z) by nia.
  repeat split; try lia.
Qed.

(** [for (let i = 0; i <= n; i += s) acc.push(g(i))] on integers. *)
Lemma counting_loop {B : Type} cond next (g : JS.num -> B) (n s : Z)
    (fuel : nat) (acc : list B) :
  (forall z, cond (JS.of_Z z) = (z <=? n)%Z) ->
  (forall z, next (JS.of_Z z) = JS.of_Z (z + s)) ->
  (0 <= n)%Z -> (1 <= s)%Z -> (Z.to_nat n + 1 < fuel)%nat ->
  for_loop fuel cond next (fun i acc => Some (acc ++ [g i])) JS.zero acc
  = Some (acc ++ map (fun z => g (JS.of_Z z)) (everyNth n s)).
Proof.
  intros Hcond Hnext Hn Hs Hfuel.
  destruct (everyNth_bounds Hn Hs) as (Hhi & Hlo & Hk).
  rewrite for_loop_iterates with (l := map JS.of_Z (everyNth n s)).
  - rewrite run_body_push. now rewrite map_map.
  - unfold everyNth. apply iterates_stride with (n := n); auto.
  - unfold everyNth, stride_from. rewrite !length_map, length_seq. lia.
Qed.

(** [for (let v = n; v > 0; v--)] visits [n, n - 1, ..., 1]. *)
Lemma iterates_down (k : nat) :
  iterates (fun v => JS.gt v JS.zero) decr (JS.of_Z (Z.of_nat k))
    (map JS.of_Z (downTo1 (Z.of_nat k))).
Proof.
  unfold downTo1. rewrite Nat2Z.id.
  generalize (eq_refl (Z.of_nat k)).
  generalize (Z.of_nat k) at 1 3 4. intros z Hz. revert z Hz.
  induction k as [|k IH]; intros z Hz.
  - apply iterates_stop. unfold JS.zero. rewrite JSFacts.gt_of_Z.
    apply Z.ltb_ge. lia.
  - rewrite stride_from_S, map_cons. apply iterates_step.
    + unfold JS.zero. rewrite JSFacts.gt_of_Z. apply Z.ltb_lt. lia.
    + unfold decr, JS.one. rewrite JSFacts.sub_of_Z.
      replace (z + -1)%Z with (z - 1)%Z by lia.
      apply IH. lia.
Qed.

(** A loop that appends does not look at what is already in the list. *)
Lemma for_loop_prefix {B : Type} cond next (g : JS.num -> list B)
    (fuel : nat) :
  forall i (acc : list B),
    for_loop fuel cond next (fun i acc => Some (acc ++ g i)) i acc
    = option_map (app acc)
        (for_loop fuel cond next (fun i acc => Some (acc ++ g i)) i []).
Proof.
  induction fuel as [|fuel IH]; intros i acc; simpl.
  - reflexivity.
  - destruct (cond i).
    + rewrite IH. rewrite (IH (next i) (g i)).
      destruct (for_loop fuel cond next _ (next i) []) as [l|]; simpl.
      * now rewrite app_assoc.
      * reflexivity.
    + simpl. now rewrite app_nil_r.
Qed.

Lemma run_body_prefix {A B : Type} (body : A -> list B -> option (list B))
    (l : list A) :
  (forall a acc, body a acc = option_map (app acc) (body a [])) ->
  forall acc, run_body body l acc = option_map (app acc) (run_body body l []).
Proof.
  intros Hbody. induction l as [|a l IH]; intros acc; simpl.
  - now rewrite app_nil_r.
  - rewrite Hbody. destruct (body a []) as [l'|]; simpl; [|reflexivity].
    rewrite IH. rewrite (IH l').
    destruct (run_body body l []) as [l''|]; simpl; [|reflexivity].
    now rewrite app_assoc.
Qed.

(** ** pin *)

Lemma everyNth_spec (n s i : Z) :
  (0 <= n)%Z -> (1 <= s)%Z ->
  In i (everyNth n s) <-> (0 <= i <= n)%Z /\ (s | i)%Z.
Proof.
  intros Hn Hs. unfold everyNth, stride_from.
  assert (Hq : (0 <= n / s)%Z) by (apply Z.div_pos; lia).
  assert (Hle : (s * (n / s) <= n)%Z) by (apply Z.mul_div_le; lia).
  rewrite in_map_iff. split.
  - intros (j & <- & Hj). apply in_seq in Hj.
    split; [nia|]. exists (Z.of_nat j). lia.
  - intros (Hi & q & ->).
    assert (Hq0 : (0 <= q)%Z) by nia.
    assert (Hqn : (q <= n / s)%Z) by (apply Z.div_le_lower_bound; lia).
    exists (Z.to_nat q). split; [lia|]. apply in_seq. lia.
Qed.

Section PinFacts.

Variable particle : Type.
Variable StringToNumber : string -> JS.num.
Variable isNumeric : value -> bool.

Local Abbreviation ToNumber' := (ToNumber StringToNumber).
Local Abbreviation ensureValidSpacing' :=
  (ensureValidSpacing StringToNumber isNumeric).
Local Abbreviation effectiveSpacing' :=
  (effectiveSpacing StringToNumber isNumeric).
Local Abbreviation pin' :=
  (pin (particle := particle) StringToNumber isNumeric).
Local Abbreviation Flag_pin' :=
  (Flag_pin (particle := particle) StringToNumber isNumeric).

(** What is asked of [isNumeric]: a value it accepts stands for a finite
    number. *)
Hypothesis isNumeric_finite :
  forall v, isNumeric v = true -> exists q : Q, ToNumber' v = JS.Fin q.

Lemma ensureValidSpacing_cases (v : value) :
  (exists q : Q,
     isNumeric v = true /\ ToNumber' v = JS.Fin q /\
     JS.ge (JS.Fin q) JS.one = true /\
     ensureValidSpacing' v = JS.of_Z (Qfloor q) /\ (1 <= Qfloor q)%Z) \/
  (isNumeric v && JS.ge (ToNumber' v) JS.one = false /\
   ensureValidSpacing' v = JS.of_Z 1).
Proof.
  unfold ensureValidSpacing.
  destruct (isNumeric v && JS.ge (ToNumber' v) JS.one) eqn:E.
  - left. apply andb_true_iff in E. destruct E as [Hn Hge].
    destruct (isNumeric_finite Hn) as [q Hq].
    exists q. rewrite Hq in *. repeat split; auto.
    unfold JS.ge, JS.le, JS.one, JS.of_Z in Hge.
    apply Qle_bool_iff in Hge. apply Qfloor_resp_le in Hge.
    now rewrite Qfloor_Z in Hge.
  - right. split; reflexivity.
Qed.

Lemma effectiveSpacing_integer (options : option PinOptions) :
  exists s : Z, (1 <= s)%Z /\ effectiveSpacing' options = JS.of_Z s.
Proof.
  unfold effectiveSpacing.
  destruct (ensureValidSpacing_cases
              (prop (spacing (assign_pin pin_defaults options))))
    as [(q & _ & _ & _ & E & Hq) | [_ E]].
  - exists (Qfloor q). now split.
  - exists 1%Z. split; [lia | assumption].
Qed.

Lemma pinEdge_selection (fuel : nat) (c : Cloth particle) (X Y s : Z)
    (pins : list particle) (edge : side_value) :
  integerGrid c X Y -> (1 <= s)%Z ->
  (Z.to_nat (Z.max X Y) + 1 < fuel)%nat ->
  pinEdge fuel c pins edge (JS.of_Z s) = Some (pins ++ selection c X Y s edge).
Proof.
  intros (HX & HY & HX0 & HY0) Hs Hfuel.
  destruct edge as [[| | |] | v]; unfold pinEdge, selection;
    rewrite ?HX, ?HY;
    try (apply counting_loop with (n := X);
         [intros; apply JSFacts.le_of_Z | intros; apply JSFacts.add_of_Z
         | lia | lia | lia]);
    try (apply counting_loop with (n := Y);
         [intros; apply JSFacts.le_of_Z | intros; apply JSFacts.add_of_Z
         | lia | lia | lia]).
  now rewrite app_nil_r.
Qed.

Lemma pinEdge_prefix (fuel : nat) (c : Cloth particle) (edge : side_value)
    (spacing : JS.num) (pins : list particle) :
  pinEdge fuel c pins edge spacing
  = option_map (app pins) (pinEdge fuel c [] edge spacing).
Proof.
  destruct edge as [[| | |] | v]; unfold pinEdge;
    try apply (for_loop_prefix _ _ (fun i => [_])).
  simpl. now rewrite app_nil_r.
Qed.

Lemma pin_prefix (fuel : nat) (c : Cloth particle) (pins : list particle)
    (options : option PinOptions) :
  pin' fuel c pins options = option_map (app pins) (pin' fuel c [] options).
Proof.
  unfold pin.
  destruct (edges (assign_pin pin_defaults options)) as [[e | es |]|].
  - apply pinEdge_prefix.
  - rewrite !for_index_all. apply run_body_prefix.
    intros a acc. apply pinEdge_prefix.
  - simpl. now rewrite app_nil_r.
  - simpl. now rewrite app_nil_r.
Qed.

(** On a grid with integer segment counts and with enough fuel, a [pin]
    call returns the list it was given followed by the particles it
    selects. *)
Lemma pin_selected (fuel : nat) (c : Cloth particle) (X Y : Z)
    (pins : list particle) (options : option PinOptions) :
  integerGrid c X Y ->
  (Z.to_nat (Z.max X Y) + 1 < fuel)%nat ->
  exists s : Z,
    (1 <= s)%Z /\ effectiveSpacing' options = JS.of_Z s /\
    pin' fuel c pins options = Some (pins ++ selected c X Y s options).
Proof.
  intros Hgrid Hfuel.
  destruct (effectiveSpacing_integer options) as (s & Hs & Es).
  exists s. split; [assumption|]. split; [assumption|].
  unfold pin, selected. fold (effectiveSpacing' options). rewrite Es.
  destruct (edges (assign_pin pin_defaults options)) as [[e | es |]|].
  - now apply pinEdge_selection.
  - rewrite for_index_all. apply run_body_append.
    intros e acc _. now apply pinEdge_selection.
  - now rewrite app_nil_r.
  - now rewrite app_nil_r.
Qed.

(** C8.  The spacing a [pin] call works with is a positive integer: the
    floor of the given spacing when that is numeric and at least 1, and
    the default 1 for any other value, a missing one included; the loop
    of an edge then takes the particles at the indices [0, s, 2s, ...] of
    that edge, which are the indices within the edge that [s] divides. *)
Theorem pin_spacing_positive_integer (options : option PinOptions) :
  let v := prop (spacing (assign_pin pin_defaults options)) in
  exists s : Z,
    (1 <= s)%Z /\
    effectiveSpacing' options = JS.of_Z s /\
    (isNumeric v = true -> JS.ge (ToNumber' v) JS.one = true ->
     JS.Math_floor (ToNumber' v) = JS.of_Z s) /\
    (isNumeric v && JS.ge (ToNumber' v) JS.one = false -> s = 1%Z) /\
    (forall fuel (c : Cloth particle) X Y pins,
       integerGrid c X Y -> (Z.to_nat (Z.max X Y) + 1 < fuel)%nat ->
       pin' fuel c pins options = Some (pins ++ selected c X Y s options)) /\
    (forall n i, (0 <= n)%Z ->
       In i (everyNth n s) <-> (0 <= i <= n)%Z /\ (s | i)%Z).
Proof.
  intros v. unfold effectiveSpacing. fold v.
  assert (Hpin : forall s : Z, (1 <= s)%Z ->
            ensureValidSpacing' v = JS.of_Z s ->
            forall fuel (c : Cloth particle) X Y pins,
              integerGrid c X Y -> (Z.to_nat (Z.max X Y) + 1 < fuel)%nat ->
              pin' fuel c pins options
              = Some (pins ++ selected c X Y s options)).
  { intros s Hs E fuel c X Y pins Hgrid Hfuel.
    destruct (pin_selected pins options Hgrid Hfuel) as (s' & _ & E' & H).
    unfold effectiveSpacing in E'. fold v in E'. rewrite E in E'.
    apply JSFacts.of_Z_inj in E'. now subst s'. }
  destruct (ensureValidSpacing_cases v)
    as [(q & Hn & Hq & Hge & E & H1) | [Hno E]].
  - exists (Qfloor q). split; [assumption|]. split; [assumption|].
    split; [intros _ _; now rewrite Hq|].
    split; [intros Hno; rewrite Hn, Hq, Hge in Hno; discriminate|].
    split; [now apply Hpin|].
    intros n i Hn0. now apply everyNth_spec.
  - exists 1%Z. split; [lia|]. split; [assumption|].
    split; [intros Hn Hge; rewrite Hn, Hge in Hno; discriminate|].
    split; [reflexivity|].
    split; [apply Hpin; [lia | assumption]|].
    intros n i Hn0. apply everyNth_spec; lia.
Qed.

(** C5 (as amended).  A [pin] call with an array of edges appends, for
    each edge of the array in turn, the particles that edge selects;
    nothing is compared with what the list already holds, so a particle
    lying on several selected edges is appended once for each of them.
    The corner shared by the top and left edges is always selected by the
    top edge, and by the left edge whenever the spacing divides
    [ySegments]. *)
Theorem pin_appends_once_per_edge (fuel : nat) (c : Cloth particle)
    (X Y : Z) (pins : list particle) (es : list side_value)
    (sp : option value) :
  integerGrid c X Y ->
  (Z.to_nat (Z.max X Y) + 1 < fuel)%nat ->
  let options := Some {| edges := Some (EdgesArray es); spacing := sp |} in
  let corner := particleAt c (JS.of_Z 0) (JS.of_Z Y) in
  exists s : Z,
    (1 <= s)%Z /\ effectiveSpacing' options = JS.of_Z s /\
    pin' fuel c pins options
    = Some (pins ++ flat_map (selection c X Y s) es) /\
    In corner (selection c X Y s (IsSide TOP)) /\
    ((s | Y)%Z -> In corner (selection c X Y s (IsSide LEFT))).
Proof.
  intros Hgrid Hfuel options corner.
  destruct (pin_selected pins options Hgrid Hfuel) as (s & Hs & Es & Hpin).
  destruct Hgrid as (_ & _ & HX & HY).
  exists s. repeat split; try assumption.
  - unfold selection. apply in_map_iff. exists 0%Z. split; [reflexivity|].
    apply everyNth_spec; try lia. split; [lia | apply Z.divide_0_r].
  - intros Hdiv. unfold selection. apply in_map_iff. exists Y.
    split; [reflexivity|]. apply everyNth_spec; try lia. split; [lia|auto].
Qed.

(** C10.  [flag.pin(options)] leaves the pins already in the list in
    place and appends after them the particles the call selects: on a
    grid of [X] by [Y] segments the call returns, and the new list is the
    old one followed by the selection of each edge named by the options,
    taken with the spacing of the call (a selection that is not empty for
    an edge that is one of the four sides).  Whatever the cloth, the
    result is the one for an empty list with the old list in front;
    [unpin] empties the list and [setLengthConstraints] does not touch
    it. *)
Theorem pin_accumulates (fuel : nat) (flag : Flag particle)
    (options : option PinOptions) :
  Flag_pin' fuel flag options
  = option_map
      (fun new => {| cloth := cloth flag; pins := pins flag ++ new;
                     lengthConstraints := lengthConstraints flag |})
      (pin' fuel (cloth flag) [] options) /\
  pins (Flag_unpin flag) = [] /\
  (forall side flag',
     setLengthConstraints fuel flag side = Some flag' ->
     pins flag' = pins flag) /\
  (forall X Y,
     integerGrid (cloth flag) X Y ->
     (Z.to_nat (Z.max X Y) + 1 < fuel)%nat ->
     exists s : Z,
       (1 <= s)%Z /\ effectiveSpacing' options = JS.of_Z s /\
       Flag_pin' fuel flag options
       = Some {| cloth := cloth flag;
                 pins := pins flag ++ selected (cloth flag) X Y s options;
                 lengthConstraints := lengthConstraints flag |} /\
       (forall side sp,
          options = Some {| edges := Some (EdgesString (IsSide side));
                            spacing := sp |} ->
          selected (cloth flag) X Y s options <> [])).
Proof.
  split; [|split; [|split]].
  - unfold Flag_pin. rewrite pin_prefix.
    destruct (pin' fuel (cloth flag) [] options); reflexivity.
  - reflexivity.
  - intros side flag'. unfold setLengthConstraints.
    match goal with |- match ?b with _ => _ end = _ -> _ => destruct b end;
      [intros [= <-]; reflexivity | discriminate].
  - intros X Y Hgrid Hfuel.
    destruct (pin_selected (pins flag) options Hgrid Hfuel)
      as (s & Hs & Es & Hpin).
    exists s. split; [assumption|]. split; [assumption|]. split.
    + unfold Flag_pin. now rewrite Hpin.
    + intros side sp ->. unfold selected. simpl assign_pin. simpl edges.
      cbv iota.
      destruct side; unfold selection;
        match goal with
        | |- context [everyNth ?m s] =>
            unfold everyNth; rewrite Nat.add_1_r, stride_from_S
        end; discriminate.
Qed.

(** C9.  An edge value that is none of the four sides adds no particle and
    does not make the call fail: alone it leaves the list as it is, and in
    an array the call does exactly what it does on the array without the
    unrecognized values, so that the recognized edges of the array are
    processed as if they were given alone. *)
Theorem pin_ignores_unrecognized_edges (fuel : nat) (c : Cloth particle)
    (pins : list particle) :
  (forall v s, pinEdge fuel c pins (NotSide v) s = Some pins) /\
  (forall v sp,
     pin' fuel c pins
       (Some {| edges := Some (EdgesString (NotSide v)); spacing := sp |})
     = Some pins) /\
  (forall es sp,
     pin' fuel c pins
       (Some {| edges := Some (EdgesArray es); spacing := sp |})
     = pin' fuel c pins
         (Some {| edges := Some (EdgesArray (filter recognized es));
                  spacing := sp |})).
Proof.
  split; [reflexivity|]. split; [reflexivity|].
  intros es sp. unfold pin. simpl assign_pin. simpl edges. simpl spacing.
  cbv iota. rewrite !for_index_all.
  generalize (ensureValidSpacing' (prop (assign_field (Some (VNumber JS.one)) sp))).
  intros s. revert pins.
  induction es as [|[side | v] es IH]; intros pins.
  - reflexivity.
  - change (filter recognized (IsSide side :: es))
      with (IsSide side :: filter recognized es).
    cbn [run_body].
    destruct (pinEdge fuel c pins (IsSide side) s); [apply IH | reflexivity].
  - change (filter recognized (NotSide v :: es))
      with (filter recognized es).
    cbn [run_body].
    change (pinEdge fuel c pins (NotSide v) s) with (Some pins).
    apply IH.
Qed.

End PinFacts.

Lemma isFiniteNumber_finite (v : value) :
  isFiniteNumber v = true -> exists q : Q, ToNumber NaNString v = JS.Fin q.
Proof.
  destruct v as [[q | | |] | s |]; simpl; try discriminate.
  intros _. now exists q.
Qed.

Lemma integerGrid_gridCloth (x y : Z) :
  (0 <= x)%Z -> (0 <= y)%Z -> integerGrid (gridCloth x y) x y.
Proof. intros Hx Hy. repeat split; assumption. Qed.

Lemma pin_spacing_positive_integer_witness :
  pin NaNString isFiniteNumber 10 (gridCloth 4 2) []
    (Some {| edges := Some (EdgesString (IsSide TOP));
             spacing := Some (VNumber (dec 25 10)) |})
  = Some [at_ 0 2; at_ 2 2; at_ 4 2].
Proof.
  destruct (pin_spacing_positive_integer gridRef NaNString isFiniteNumber
              isFiniteNumber_finite
              (Some {| edges := Some (EdgesString (IsSide TOP));
                       spacing := Some (VNumber (dec 25 10)) |}))
    as (s & _ & E & _ & _ & Hpin & _).
  assert (Hs : s = 2%Z) by (apply JSFacts.of_Z_inj; rewrite <- E; reflexivity).
  subst s.
  rewrite (Hpin 10%nat (gridCloth 4 2) 4%Z 2%Z []).
  - reflexivity.
  - apply integerGrid_gridCloth; lia.
  - simpl; lia.
Defined.

(** C5, the claim as stated fails: pinning the top and left edges of a
    one-by-one grid appends the corner they share twice. *)
Lemma pin_top_left_corner_twice :
  exists pins : list gridRef,
    pin NaNString isFiniteNumber 5 (gridCloth 1 1) []
      (pinEdges [IsSide TOP; IsSide LEFT]) = Some pins /\
    pins = [at_ 0 1; at_ 1 1; at_ 0 0; at_ 0 1] /\
    count_occ gridRef_eq_dec pins (at_ 0 1) = 2%nat.
Proof. eexists. split; [reflexivity|]. split; reflexivity. Qed.

Lemma pin_appends_once_per_edge_witness :
  pin NaNString isFiniteNumber 5 (gridCloth 1 1) [at_ 1 0]
    (pinEdges [IsSide TOP; IsSide LEFT])
  = Some [at_ 1 0; at_ 0 1; at_ 1 1; at_ 0 0; at_ 0 1].
Proof.
  destruct (pin_appends_once_per_edge NaNString isFiniteNumber
              isFiniteNumber_finite
              (fuel := 5) [at_ 1 0] [IsSide TOP; IsSide LEFT] None
              (integerGrid_gridCloth (x := 1) (y := 1) ltac:(lia) ltac:(lia))
              ltac:(simpl; lia))
    as (s & _ & E & Hpin & _).
  assert (Hs : s = 1%Z) by (apply JSFacts.of_Z_inj; rewrite <- E; reflexivity).
  subst s. exact Hpin.
Defined.

Lemma pin_accumulates_witness :
  Flag_pin NaNString isFiniteNumber 5
    {| cloth := gridCloth 1 1; pins := [at_ 0 0; at_ 0 1];
       lengthConstraints := [] |}
    (pinEdges [IsSide RIGHT; IsSide TOP])
  = Some {| cloth := gridCloth 1 1;
            pins := [at_ 0 0; at_ 0 1;
                     at_ 1 0; at_ 1 1; at_ 0 1; at_ 1 1];
            lengthConstraints := [] |}.
Proof.
  destruct (pin_accumulates NaNString isFiniteNumber
              isFiniteNumber_finite 5
              {| cloth := gridCloth 1 1; pins := [at_ 0 0; at_ 0 1];
                 lengthConstraints := [] |}
              (pinEdges [IsSide RIGHT; IsSide TOP])) as (_ & _ & _ & Hadds).
  destruct (Hadds 1%Z 1%Z) as (s & _ & E & Hpin & _).
  - apply integerGrid_gridCloth; lia.
  - simpl; lia.
  - assert (Hs : s = 1%Z)
      by (apply JSFacts.of_Z_inj; rewrite <- E; reflexivity).
    subst s. exact Hpin.
Defined.

(** ** setLengthConstraints *)

Lemma nth_error_stride_from (i0 s : Z) (k j : nat) :
  (j < k)%nat ->
  nth_error (stride_from i0 s k) j = Some (i0 + Z.of_nat j * s)%Z.
Proof.
  intros Hj. unfold stride_from.
  rewrite nth_error_map, nth_error_seq.
  destruct (Nat.ltb_spec j k); [reflexivity | lia].
Qed.

Lemma flat_map_map {A B C : Type} (f : B -> list C) (g : A -> B)
    (l : list A) :
  flat_map f (map g l) = flat_map (fun a => f (g a)) l.
Proof. induction l as [|a l IH]; simpl; congruence. Qed.

(** In a concatenation of rows of [n] elements, the element [j] of the
    row [i] is at position [i * n + j]. *)
Lemma nth_error_flat_map_rows {A B : Type} (f : A -> list B) (n : nat)
    (l : list A) :
  (forall a, length (f a) = n) ->
  forall i j a, (j < n)%nat -> nth_error l i = Some a ->
    nth_error (flat_map f l) (i * n + j) = nth_error (f a) j.
Proof.
  intros Hlen. induction l as [|b l IH]; intros i j a Hj Hi.
  - destruct i; discriminate.
  - simpl flat_map. destruct i as [|i].
    + injection Hi as ->. simpl. apply nth_error_app1. now rewrite Hlen.
    + simpl in Hi. rewrite nth_error_app2 by (rewrite Hlen; simpl; lia).
      rewrite Hlen. replace (S i * n + j - n)%nat with (i * n + j)%nat
        by (simpl; lia).
      now apply IH.
Qed.

Lemma list_sum_map_const {A : Type} (n : nat) (l : list A) :
  list_sum (map (fun _ => n) l) = (length l * n)%nat.
Proof. induction l as [|a l IH]; simpl; [reflexivity | now rewrite IH]. Qed.

Section LengthConstraintFacts.

Variable particle : Type.

Lemma horizontal_row (fuel : nat) (c : Cloth particle) (X : Z) (v : JS.num)
    (cs : list (FixedConstraint particle)) :
  xSegments c = JS.of_Z X -> (0 <= X)%Z -> (Z.to_nat X < fuel)%nat ->
  for_loop fuel (fun u => JS.lt u (xSegments c)) incr
    (fun u cs =>
       Some (cs ++ [new_FixedConstraint (particleAt c u v)
                      (particleAt c (JS.add u JS.one) v) (restDistance c)]))
    JS.zero cs
  = Some (cs ++ map (fun u => new_FixedConstraint
                                (particleAt c (JS.of_Z u) v)
                                (particleAt c (JS.of_Z (u + 1)) v)
                                (restDistance c))
                  (stride_from 0 1 (Z.to_nat X))).
Proof.
  intros HX HX0 Hfuel. rewrite HX.
  rewrite for_loop_iterates
    with (l := map JS.of_Z (stride_from 0 1 (Z.to_nat X))).
  - rewrite run_body_push, map_map. do 2 f_equal.
    apply map_ext. intros u. unfold JS.one. now rewrite JSFacts.add_of_Z.
  - apply iterates_stride with (n := (X - 1)%Z).
    + intros z. rewrite JSFacts.lt_of_Z.
      destruct (Z.ltb_spec z X), (Z.leb_spec z (X - 1)); lia || reflexivity.
    + intros z. apply JSFacts.add_of_Z.
    + lia.
    + lia.
    + destruct (Z.to_nat X) eqn:E; [now left | right; lia].
  - unfold stride_from. rewrite !length_map, length_seq. lia.
Qed.

Lemma vertical_column (fuel : nat) (c : Cloth particle) (Y : Z) (u : JS.num)
    (cs : list (FixedConstraint particle)) :
  ySegments c = JS.of_Z Y -> (0 <= Y)%Z -> (Z.to_nat Y < fuel)%nat ->
  for_loop fuel (fun v => JS.gt v JS.zero) decr
    (fun v cs =>
       Some (cs ++ [new_FixedConstraint (particleAt c u v)
                      (particleAt c u (JS.sub v JS.one)) (restDistance c)]))
    (ySegments c) cs
  = Some (cs ++ map (fun v => new_FixedConstraint
                                (particleAt c u (JS.of_Z v))
                                (particleAt c u (JS.of_Z (v - 1)))
                                (restDistance c))
                  (downTo1 Y)).
Proof.
  intros HY HY0 Hfuel. rewrite HY.
  rewrite for_loop_iterates with (l := map JS.of_Z (downTo1 Y)).
  - rewrite run_body_push, map_map. do 2 f_equal.
    apply map_ext. intros v. unfold JS.one. now rewrite JSFacts.sub_of_Z.
  - rewrite <- (Z2Nat.id Y) by assumption. apply iterates_down.
  - unfold downTo1, stride_from. rewrite !length_map, length_seq. lia.
Qed.

Lemma unit_steps (n : Z) :
  (0 <= n)%Z ->
  iterates (fun i => JS.le i (JS.of_Z n)) incr (JS.of_Z 0)
    (map JS.of_Z (stride_from 0 1 (Z.to_nat n + 1))).
Proof.
  intros Hn. apply iterates_stride with (n := n).
  - intros z. apply JSFacts.le_of_Z.
  - intros z. apply JSFacts.add_of_Z.
  - lia.
  - lia.
  - right. lia.
Qed.

Lemma setLengthConstraints_left (fuel : nat) (flag : Flag particle)
    (X Y : Z) :
  integerGrid (cloth flag) X Y ->
  (Z.to_nat (Z.max X Y) + 1 < fuel)%nat ->
  setLengthConstraints fuel flag (IsSide LEFT)
  = Some {| cloth := cloth flag; pins := pins flag;
            lengthConstraints := hoistToFly (cloth flag) X Y |}.
Proof.
  intros (HX & HY & HX0 & HY0) Hfuel. unfold setLengthConstraints.
  simpl is_side. cbv iota.
  replace (for_loop fuel _ incr _ JS.zero [])
    with (Some (hoistToFly (cloth flag) X Y)); [reflexivity|].
  symmetry. rewrite HY.
  rewrite for_loop_iterates
    with (l := map JS.of_Z (stride_from 0 1 (Z.to_nat Y + 1))).
  - rewrite run_body_append
      with (f := fun v => map (fun u => new_FixedConstraint
                                          (particleAt (cloth flag) (JS.of_Z u) v)
                                          (particleAt (cloth flag) (JS.of_Z (u + 1)) v)
                                          (restDistance (cloth flag)))
                             (stride_from 0 1 (Z.to_nat X))).
    + simpl app. now rewrite flat_map_map.
    + intros v acc _. apply horizontal_row; auto. lia.
  - now apply unit_steps.
  - unfold stride_from. rewrite !length_map, length_seq. lia.
Qed.

Lemma setLengthConstraints_top (fuel : nat) (flag : Flag particle)
    (X Y : Z) :
  integerGrid (cloth flag) X Y ->
  (Z.to_nat (Z.max X Y) + 1 < fuel)%nat ->
  setLengthConstraints fuel flag (IsSide TOP)
  = Some {| cloth := cloth flag; pins := pins flag;
            lengthConstraints := topToBottom (cloth flag) X Y |}.
Proof.
  intros (HX & HY & HX0 & HY0) Hfuel. unfold setLengthConstraints.
  simpl is_side. cbv iota.
  replace (for_loop fuel _ incr _ JS.zero [])
    with (Some (topToBottom (cloth flag) X Y)); [reflexivity|].
  symmetry. rewrite HX.
  rewrite for_loop_iterates
    with (l := map JS.of_Z (stride_from 0 1 (Z.to_nat X + 1))).
  - rewrite run_body_append
      with (f := fun u => map (fun v => new_FixedConstraint
                                          (particleAt (cloth flag) u (JS.of_Z v))
                                          (particleAt (cloth flag) u (JS.of_Z (v - 1)))
                                          (restDistance (cloth flag)))
                             (downTo1 Y)).
    + simpl app. now rewrite flat_map_map.
    + intros u acc _. apply vertical_column; auto. lia.
  - now apply unit_steps.
  - unfold stride_from. rewrite !length_map, length_seq. lia.
Qed.

Lemma hoistToFly_nth (c : Cloth particle) (X Y u v : Z) :
  (0 <= u < X)%Z -> (0 <= v <= Y)%Z ->
  nth_error (hoistToFly c X Y) (Z.to_nat (v * X + u))
  = Some (horizontalLink c u v).
Proof.
  intros Hu Hv. unfold hoistToFly.
  replace (Z.to_nat (v * X + u))
    with (Z.to_nat v * Z.to_nat X + Z.to_nat u)%nat by nia.
  rewrite nth_error_flat_map_rows with (a := v).
  - rewrite nth_error_map, nth_error_stride_from by lia.
    simpl. do 2 f_equal. lia.
  - intros a. unfold stride_from. now rewrite !length_map, length_seq.
  - lia.
  - rewrite nth_error_stride_from by lia. f_equal. lia.
Qed.

Lemma topToBottom_nth (c : Cloth particle) (X Y u v : Z) :
  (0 <= u <= X)%Z -> (1 <= v <= Y)%Z ->
  nth_error (topToBottom c X Y) (Z.to_nat (u * Y + (Y - v)))
  = Some (verticalLink c u v).
Proof.
  intros Hu Hv. unfold topToBottom.
  replace (Z.to_nat (u * Y + (Y - v)))
    with (Z.to_nat u * Z.to_nat Y + Z.to_nat (Y - v))%nat by nia.
  rewrite nth_error_flat_map_rows with (a := u).
  - unfold downTo1. rewrite nth_error_map, nth_error_stride_from by lia.
    simpl. do 2 f_equal. lia.
  - intros a. unfold downTo1, stride_from.
    now rewrite !length_map, length_seq.
  - lia.
  - rewrite nth_error_stride_from by lia. f_equal. lia.
Qed.

(** C3.  On a grid of [X] by [Y] segments, [setLengthConstraints] stores
    constraints between direct neighbours with target length
    [restDistance]: for the left side, row after row, the links of a row
    from column 0 (the hoist) towards the fly, the link from column [u]
    to [u + 1] of row [v] being at position [v * X + u]; for the top
    side, column after column, the links of a column from the top row
    [Y] downwards, the link from row [v] to [v - 1] of column [u] being
    at position [u * Y + (Y - v)]. *)
Theorem setLengthConstraints_hoist_first (fuel : nat) (flag : Flag particle)
    (X Y : Z) :
  integerGrid (cloth flag) X Y ->
  (Z.to_nat (Z.max X Y) + 1 < fuel)%nat ->
  let c := cloth flag in
  (setLengthConstraints fuel flag (IsSide LEFT)
   = Some {| cloth := c; pins := pins flag;
             lengthConstraints := hoistToFly c X Y |} /\
   length (hoistToFly c X Y) = Z.to_nat (X * (Y + 1)) /\
   forall u v, (0 <= u < X)%Z -> (0 <= v <= Y)%Z ->
     nth_error (hoistToFly c X Y) (Z.to_nat (v * X + u))
     = Some (new_FixedConstraint
               (particleAt c (JS.of_Z u) (JS.of_Z v))
               (particleAt c (JS.of_Z (u + 1)) (JS.of_Z v))
               (restDistance c))) /\
  (setLengthConstraints fuel flag (IsSide TOP)
   = Some {| cloth := c; pins := pins flag;
             lengthConstraints := topToBottom c X Y |} /\
   length (topToBottom c X Y) = Z.to_nat ((X + 1) * Y) /\
   forall u v, (0 <= u <= X)%Z -> (1 <= v <= Y)%Z ->
     nth_error (topToBottom c X Y) (Z.to_nat (u * Y + (Y - v)))
     = Some (new_FixedConstraint
               (particleAt c (JS.of_Z u) (JS.of_Z v))
               (particleAt c (JS.of_Z u) (JS.of_Z (v - 1)))
               (restDistance c))).
Proof.
  intros Hgrid Hfuel c. pose proof Hgrid as (_ & _ & HX0 & HY0).
  split; split.
  - now apply setLengthConstraints_left.
  - split.
    + unfold hoistToFly. rewrite length_flat_map.
      rewrite map_ext with (g := fun _ => Z.to_nat X)
        by (intros; unfold stride_from; now rewrite !length_map, length_seq).
      rewrite list_sum_map_const. unfold stride_from.
      rewrite length_map, length_seq. nia.
    + intros u v Hu Hv. now apply hoistToFly_nth.
  - now apply setLengthConstraints_top.
  - split.
    + unfold topToBottom. rewrite length_flat_map.
      rewrite map_ext with (g := fun _ => Z.to_nat Y)
        by (intros; unfold downTo1, stride_from;
            now rewrite !length_map, length_seq).
      rewrite list_sum_map_const. unfold stride_from.
      rewrite length_map, length_seq. nia.
    + intros u v Hu Hv. now apply topToBottom_nth.
Qed.

End LengthConstraintFacts.

(** ** simulate *)

Lemma run_body_total {A S : Type} (f : A -> S -> S) (l : list A) (s : S) :
  run_body (fun a s => Some (f a s)) l s
  = Some (fold_left (fun s a => f a s) l s).
Proof. revert s. induction l as [|a l IH]; intros s; simpl; auto. Qed.

Section SimulateFacts.

Variable particle : Type.
Variable particle_eq_dec : forall a b : particle, {a = b} + {a <> b}.
Variable Vector3 : Type.
Variable Cloth_simulate :
  Cloth particle -> JS.num -> World particle Vector3 -> World particle Vector3.
Variable resolve :
  FixedConstraint particle -> World particle Vector3 ->
  World particle Vector3.

Local Abbreviation World' := (World particle Vector3).
Local Abbreviation pinParticle' := (pinParticle particle_eq_dec (Vector3 := Vector3)).
Local Abbreviation simulate' :=
  (simulate particle_eq_dec Cloth_simulate resolve).
Local Abbreviation simulate_pinned' :=
  (simulate_pinned particle_eq_dec Cloth_simulate).
Local Abbreviation resolve_all :=
  (fold_left (fun (w : World') c => resolve c w)).

Lemma pinParticle_same (p : particle) (w : World') :
  position (pinParticle' p w p) = original (w p) /\
  previous (pinParticle' p w p) = original (w p) /\
  original (pinParticle' p w p) = original (w p).
Proof.
  unfold pinParticle, update, copy.
  destruct (particle_eq_dec p p); [now repeat split | contradiction].
Qed.

Lemma pinParticle_other (p q : particle) (w : World') :
  q <> p -> pinParticle' p w q = w q.
Proof.
  intros Hq. unfold pinParticle, update.
  destruct (particle_eq_dec q p); [contradiction | reflexivity].
Qed.

Lemma pinParticle_original (p q : particle) (w : World') :
  original (pinParticle' p w q) = original (w q).
Proof.
  destruct (particle_eq_dec q p) as [-> | Hq].
  - apply pinParticle_same.
  - now rewrite pinParticle_other.
Qed.

(** The pin loop: the particles of the list end at their original, the
    others are left alone. *)
Lemma pin_loop (pins : list particle) :
  forall (w : World') (q : particle),
    let w' := fold_left (fun w p => pinParticle' p w) pins w in
    original (w' q) = original (w q) /\
    (In q pins ->
     position (w' q) = original (w q) /\ previous (w' q) = original (w q)) /\
    (~ In q pins -> w' q = w q).
Proof.
  induction pins as [|p pins IH]; intros w q; simpl.
  - split; [reflexivity|]. split; [intros [] | reflexivity].
  - destruct (IH (pinParticle' p w) q) as (Ho & Hin & Hout).
    split; [|split].
    + rewrite Ho. apply pinParticle_original.
    + intros Hq. destruct (in_dec particle_eq_dec q pins) as [Hi | Hn].
      * destruct (Hin Hi) as [H1 H2].
        rewrite H1, H2. split; apply pinParticle_original.
      * destruct Hq as [-> | Hq]; [|contradiction].
        rewrite (Hout Hn). split; apply pinParticle_same.
    + intros Hq. rewrite Hout by tauto.
      apply pinParticle_other. intros ->. tauto.
Qed.

Lemma simulate_steps (flag : Flag particle) (deltaTime : JS.num)
    (w : World') :
  simulate' flag deltaTime w
  = Some (resolve_all (lengthConstraints flag)
            (simulate_pinned' flag deltaTime w)).
Proof.
  unfold simulate, simulate_pinned.
  rewrite for_index_all, run_body_total.
  now rewrite for_index_all, run_body_total.
Qed.

(** C2.  [simulate(deltaTime)] first lets the cloth simulate, then sets
    the position and the previous position of every pin to the particle's
    original, leaving the other particles as the cloth left them, then
    resolves the length constraints one after the other in the order of
    the list, each on the state the one before it produced. *)
Theorem simulate_sequence (flag : Flag particle) (deltaTime : JS.num)
    (w : World') :
  let integrated := Cloth_simulate (cloth flag) deltaTime w in
  let pinned := simulate_pinned' flag deltaTime w in
  simulate' flag deltaTime w
  = Some (resolve_all (lengthConstraints flag) pinned) /\
  pinned = fold_left (fun w p => pinParticle' p w) (pins flag) integrated /\
  (forall q, In q (pins flag) ->
     position (pinned q) = original (integrated q) /\
     previous (pinned q) = original (integrated q)) /\
  (forall q, ~ In q (pins flag) -> pinned q = integrated q) /\
  (forall cs1 c cs2 w',
     resolve_all (cs1 ++ c :: cs2) w'
     = resolve_all cs2 (resolve c (resolve_all cs1 w'))).
Proof.
  intros integrated pinned.
  split; [apply simulate_steps|]. split; [reflexivity|].
  split; [|split].
  - intros q Hq. now apply (pin_loop (pins flag) integrated q).
  - intros q Hq. now apply (pin_loop (pins flag) integrated q).
  - intros cs1 c cs2 w'. now rewrite fold_left_app.
Qed.

Lemma resolve_all_frame (cs : list (FixedConstraint particle))
    (q : particle) :
  (forall c w', In c cs -> resolve c w' q = w' q) ->
  forall w, resolve_all cs w q = w q.
Proof.
  induction cs as [|c cs IH]; intros Hframe w; simpl.
  - reflexivity.
  - rewrite IH by (intros; apply Hframe; now right).
    apply Hframe. now left.
Qed.

End SimulateFacts.

(** ** Examples on a small grid *)

Lemma setLengthConstraints_hoist_first_witness :
  setLengthConstraints 5 (gridFlag 2 1 []) (IsSide LEFT)
  = Some {| cloth := gridCloth 2 1; pins := [];
            lengthConstraints :=
              [link (at_ 0 0) (at_ 1 0); link (at_ 1 0) (at_ 2 0);
               link (at_ 0 1) (at_ 1 1); link (at_ 1 1) (at_ 2 1)] |} /\
  setLengthConstraints 5 (gridFlag 2 1 []) (IsSide TOP)
  = Some {| cloth := gridCloth 2 1; pins := [];
            lengthConstraints :=
              [link (at_ 0 1) (at_ 0 0); link (at_ 1 1) (at_ 1 0);
               link (at_ 2 1) (at_ 2 0)] |}.
Proof.
  destruct (@setLengthConstraints_hoist_first gridRef 5 (gridFlag 2 1 [])
              2 1 (integerGrid_gridCloth (x := 2) (y := 1)
                     ltac:(lia) ltac:(lia))
              ltac:(simpl; lia))
    as [[HL _] [HT _]].
  split; [exact HL | exact HT].
Defined.

(** The resolve of the specification leaves a particle that carries the
    pinned flag where it is. *)
Lemma resolve_spec_frame (pinned : gridRef -> bool)
    (c : FixedConstraint gridRef) (w : World gridRef vec) (q : gridRef) :
  pinned q = true -> resolve_spec pinned c w q = w q.
Proof.
  intros Hq. unfold resolve_spec.
  destruct (targetDistance c) as [[t | | |] | s |]; try reflexivity.
  destruct (Qeq_bool _ 0); try reflexivity.
  destruct (pinned (p1 c)) eqn:E1, (pinned (p2 c)) eqn:E2; try reflexivity;
    unfold update;
    repeat match goal with
           | |- context [gridRef_eq_dec q ?p] =>
               destruct (gridRef_eq_dec q p); [congruence|]
           end;
    reflexivity.
Qed.

Lemma memberOf_pins (l : list gridRef) (q : gridRef) :
  In q l -> memberOf l q = true.
Proof.
  intros Hq. unfold memberOf.
  destruct (in_dec gridRef_eq_dec q l); [reflexivity | contradiction].
Qed.



Lemma simulate_sequence_witness :
  let flag :=
    {| cloth := gridCloth 1 1; pins := [at_ 0 0; at_ 0 1];
       lengthConstraints := hoistToFly (gridCloth 1 1) 1 1 |} in
  let step := carried (vec_of (-3) 0 0) in
  let resolve := resolve_spec (memberOf (pins flag)) in
  simulate gridRef_eq_dec step resolve flag (dec 1 60) atRest
  = Some (resolve (link (at_ 0 1) (at_ 1 1))
            (resolve (link (at_ 0 0) (at_ 1 0))
               (pinParticle gridRef_eq_dec (at_ 0 1)
                  (pinParticle gridRef_eq_dec (at_ 0 0)
                     (step (gridCloth 1 1) (dec 1 60) atRest))))).
Proof.
  intros flag step resolve.
  exact (proj1 (@simulate_sequence gridRef gridRef_eq_dec vec step resolve
                  flag (dec 1 60) atRest)).
Defined.

(** ** buildRectangularFlagFromMedia *)

Section MediaFacts.

Variable particle : Type.
Variable StringToNumber : string -> JS.num.
Variable isNumeric : value -> bool.
Variable gridParticle : JS.num -> JS.num -> particle.
Variable getAngleOfSide : side_value -> value.

Local Abbreviation flagArgs' :=
  (flagArgs StringToNumber isNumeric getAngleOfSide).
Local Abbreviation flagCloth' :=
  (flagCloth StringToNumber isNumeric gridParticle getAngleOfSide).
Local Abbreviation build :=
  (buildRectangularFlagFromMedia StringToNumber isNumeric gridParticle
     getAngleOfSide).

(** The flag that is returned holds the cloth built from the arguments. *)
Lemma buildRectangularFlagFromMedia_cloth (fuel : nat)
    (element : option Element) (options : Options.t) (flag : Flag particle) :
  build fuel element options = Some flag ->
  cloth flag = flagCloth' element options.
Proof.
  unfold buildRectangularFlagFromMedia, new_Flag, Flag_pin. simpl cloth.
  destruct (pin _ _ _ _ _ _); [|discriminate].
  now intros [= <-].
Qed.

(** The size computed from the element and the options reads neither the
    orientation nor the hoisting. *)
Lemma computeSize_orientation (element : option Element)
    (options : Options.t) (side : side_value) :
  computeSize StringToNumber isNumeric element
    (Options.assign defaults (withOrientation options side))
  = computeSize StringToNumber isNumeric element
      (Options.assign defaults options).
Proof. reflexivity. Qed.

(** The extents [flagArgs] gives the flag: those of [computeSize], and
    exchanged for a vertical orientation. *)
Lemma flagArgs_extents (element : option Element) (options : Options.t) :
  let settings := Options.assign defaults options in
  let size := computeSize StringToNumber isNumeric element settings in
  let args := flagArgs' element options in
  Options.width args
  = Some (if isVertical settings then snd size else fst size) /\
  Options.height args
  = Some (if isVertical settings then fst size else snd size) /\
  Options.restDistance args = Options.restDistance options /\
  Options.mass args = Options.mass options /\
  Options.pin args = Options.pin options.
Proof.
  intros settings size args. subst args. unfold flagArgs.
  fold settings. fold size. unfold computeFlagArgs.
  change (isVertical (with_size settings size)) with (isVertical settings).
  assert (Hkeep : forall A (f : option A), assign_field None f = f)
    by (intros A [a|]; reflexivity).
  destruct (isVertical settings); repeat split;
    try reflexivity; simpl; now rewrite ?Hkeep.
Qed.

(** The segment counts of the cloth, from the extents of the
    arguments. *)
Lemma flagCloth_segments (element : option Element) (options : Options.t) :
  let args := flagArgs' element options in
  let r := ToNumber StringToNumber
             (prop (assign_field (Options.restDistance Flag_defaults)
                      (Options.restDistance options))) in
  let count extent :=
    JS.Math_max JS.one
      (JS.Math_round (JS.div (ToNumber StringToNumber (prop extent)) r)) in
  xSegments (flagCloth' element options) = count (Options.width args) /\
  ySegments (flagCloth' element options) = count (Options.height args).
Proof.
  intros args r count.
  destruct (flagArgs_extents element options) as (Hw & Hh & Hr & _).
  fold args in Hw, Hh, Hr.
  split.
  - change (xSegments (flagCloth' element options))
      with (JS.Math_max JS.one
              (JS.Math_round
                 (JS.div
                    (ToNumber StringToNumber
                       (prop (assign_field (Options.width Flag_defaults)
                                (Options.width args))))
                    (ToNumber StringToNumber
                       (prop (assign_field
                                (Options.restDistance Flag_defaults)
                                (Options.restDistance args))))))).
    rewrite Hw, Hr. reflexivity.
  - change (ySegments (flagCloth' element options))
      with (JS.Math_max JS.one
              (JS.Math_round
                 (JS.div
                    (ToNumber StringToNumber
                       (prop (assign_field (Options.height Flag_defaults)
                                (Options.height args))))
                    (ToNumber StringToNumber
                       (prop (assign_field
                                (Options.restDistance Flag_defaults)
                                (Options.restDistance args))))))).
    rewrite Hh, Hr. reflexivity.
Qed.

(** C4 (as amended).  The hoisting leaves the arguments of the flag
    unchanged but for itself and the mirroring of the texture, and so the
    cloth, the pins and the constraints of the flag.  The orientation
    does reach the cloth: for the left or right side the flag is
    constructed with the width and the height exchanged, so that the
    segment counts of its cloth are those of the top or bottom
    orientation swapped; top and bottom build the same grid, and so do
    left and right. *)
Theorem orientation_exchanges_extents (element : option Element)
    (options : Options.t) :
  let grid side :=
    let c := flagCloth' element (withOrientation options (IsSide side)) in
    (xSegments c, ySegments c) in
  (forall h fuel,
     flagCloth' element (withHoisting options h)
     = flagCloth' element options /\
     build fuel element (withHoisting options h)
     = build fuel element options) /\
  grid BOTTOM = grid TOP /\
  grid RIGHT = grid LEFT /\
  fst (grid LEFT) = snd (grid TOP) /\
  snd (grid LEFT) = fst (grid TOP).
Proof.
  intros grid.
  split; [intros h fuel; split; reflexivity|].
  split; [reflexivity|]. split; [reflexivity|].
  subst grid. cbv beta. unfold fst, snd.
  destruct (flagCloth_segments element
              (withOrientation options (IsSide LEFT))) as [HxL HyL].
  destruct (flagCloth_segments element
              (withOrientation options (IsSide TOP))) as [HxT HyT].
  rewrite HxL, HyL, HxT, HyT.
  destruct (flagArgs_extents element
              (withOrientation options (IsSide LEFT))) as (HwL & HhL & _).
  destruct (flagArgs_extents element
              (withOrientation options (IsSide TOP))) as (HwT & HhT & _).
  rewrite HwL, HhL, HwT, HhT.
  split; reflexivity.
Qed.

End MediaFacts.

(** C4, the claim as stated fails: for an image of 300 by 200 pixels and
    no other option, the top orientation builds a cloth of 15 by 10
    segments and the left orientation one of 10 by 15. *)
Lemma orientation_changes_cloth_grid :
  let grid side :=
    let c := flagCloth NaNString isFiniteNumber gridRef_of noAngle
               (Some image300x200)
               (withOrientation Options.empty (IsSide side)) in
    (xSegments c, ySegments c) in
  grid TOP = (JS.of_Z 15, JS.of_Z 10) /\
  grid LEFT = (JS.of_Z 10, JS.of_Z 15).
Proof. split; vm_compute; reflexivity. Qed.

(** * Further properties *)

(** ** Sizes *)

Module SizeFacts.

Lemma Math_min_one (q : Q) :
  JS.Math_min JS.one (JS.Fin q)
  = if Qle_bool 1 q then JS.one else JS.Fin q.
Proof.
  unfold JS.Math_min, JS.one, JS.of_Z. simpl.
  change (inject_Z 1) with 1%Q. now destruct (Qle_bool 1 q).
Qed.

Lemma Math_max_fin (a b : Q) :
  JS.Math_max (JS.Fin a) (JS.Fin b)
  = JS.Fin (if Qle_bool b a then a else b).
Proof. unfold JS.Math_max. simpl. now destruct (Qle_bool b a). Qed.

Lemma div_fin (a b : Q) :
  0 < b -> JS.div (JS.Fin a) (JS.Fin b) = JS.Fin (a / b).
Proof.
  intros Hb. unfold JS.div.
  destruct (Qeq_bool b 0) eqn:E; [|reflexivity].
  apply Qeq_bool_iff in E. rewrite E in Hb. now apply Qlt_irrefl in Hb.
Qed.

Lemma Qle_bool_false (a b : Q) : Qle_bool a b = false -> b < a.
Proof.
  intros H. apply Qnot_le_lt. intros L. apply Qle_bool_iff in L. congruence.
Qed.

(** The factor [Math.min(1, limit / m)] for a positive [m]. *)
Lemma scale_factor (limit m : Q) :
  0 < limit -> 0 < m ->
  exists sc : Q,
    JS.Math_min JS.one (JS.div (JS.Fin limit) (JS.Fin m)) = JS.Fin sc /\
    0 < sc /\ sc <= 1 /\ sc * m <= limit /\
    (m <= limit -> sc == 1) /\ (limit <= m -> sc * m == limit).
Proof.
  intros Hl Hm. rewrite div_fin by assumption. rewrite Math_min_one.
  assert (Hm0 : ~ m == 0) by (intros E; rewrite E in Hm; now apply Qlt_irrefl in Hm).
  assert (Hdm : limit / m * m == limit) by (field; exact Hm0).
  destruct (Qle_bool 1 (limit / m)) eqn:E.
  - apply Qle_bool_iff in E.
    assert (Hml : m <= limit).
    { assert (H : 1 * m <= limit / m * m)
        by (apply Qmult_le_compat_r; [assumption | now apply Qlt_le_weak]).
      now rewrite Hdm, Qmult_1_l in H. }
    exists 1. split; [reflexivity|]. split; [reflexivity|].
    split; [apply Qle_refl|]. split; [now rewrite Qmult_1_l|].
    split; [reflexivity|].
    intros Hlm. rewrite Qmult_1_l. now apply Qle_antisym.
  - apply Qle_bool_false in E.
    exists (limit / m). split; [reflexivity|].
    split; [apply Qlt_shift_div_l; [assumption | now rewrite Qmult_0_l]|].
    split; [now apply Qlt_le_weak|].
    split; [rewrite Hdm; apply Qle_refl|].
    split; [|intros _; exact Hdm].
    intros Hml. exfalso. apply (Qlt_irrefl 1).
    apply Qle_lt_trans with (limit / m); [|assumption].
    apply Qle_shift_div_l; [assumption | now rewrite Qmult_1_l].
Qed.

End SizeFacts.

Section MoreSizeFacts.

Variable StringToNumber : string -> JS.num.
Variable isNumeric : value -> bool.

Local Abbreviation ToNumber' := (ToNumber StringToNumber).
Local Abbreviation computeSize' := (computeSize StringToNumber isNumeric).
Local Abbreviation computeSizeFromElement' :=
  (computeSizeFromElement StringToNumber isNumeric).
Local Abbreviation requested := (requestedSize StringToNumber isNumeric).

Lemma computeSize_unfold (element : option Element) (options : Options.t) :
  computeSize' element options
  = let size := requested element options in
    if isNumeric (fst size) && isNumeric (snd size) then
      let scale :=
        JS.Math_min JS.one
          (JS.div maxSize
             (JS.Math_max (ToNumber' (fst size)) (ToNumber' (snd size)))) in
      (VNumber (JS.mul (ToNumber' (fst size)) scale),
       VNumber (JS.mul (ToNumber' (snd size)) scale))
    else
      (prop (Options.width Flag_defaults),
       prop (Options.height Flag_defaults)).
Proof.
  unfold computeSize, requestedSize.
  destruct element as [element|]; [|reflexivity].
  now destruct (computeSizeFromElement' element options).
Qed.

(** The result for a positive numeric width and height: both multiplied
    by the same factor, which is at most 1. *)
Lemma computeSize_scaled (element : option Element)
    (options : Options.t) (w h : Q) :
  let size := requested element options in
  isNumeric (fst size) = true -> isNumeric (snd size) = true ->
  ToNumber' (fst size) = JS.Fin w -> ToNumber' (snd size) = JS.Fin h ->
  0 < w -> 0 < h ->
  exists sc : Q,
    computeSize' element options
    = (VNumber (JS.Fin (w * sc)), VNumber (JS.Fin (h * sc))) /\
    0 < sc /\ sc <= 1 /\ w * sc <= 500 /\ h * sc <= 500 /\
    (w <= 500 -> h <= 500 -> sc == 1).
Proof.
  intros size Hnw Hnh Hw Hh Hw0 Hh0.
  rewrite computeSize_unfold. fold size. cbv zeta.
  rewrite Hnw, Hnh, Hw, Hh. simpl andb. cbv iota.
  rewrite SizeFacts.Math_max_fin.
  set (m := if Qle_bool h w then w else h).
  assert (Hm : 0 < m /\ w <= m /\ h <= m /\ (m == w \/ m == h)).
  { subst m. destruct (Qle_bool h w) eqn:E.
    - apply Qle_bool_iff in E. repeat split; auto using Qle_refl.
      left; reflexivity.
    - apply SizeFacts.Qle_bool_false in E.
      repeat split; auto using Qle_refl, Qlt_le_weak. right; reflexivity. }
  destruct Hm as (Hm0 & Hwm & Hhm & Hmax).
  destruct (@SizeFacts.scale_factor 500 m)
    as (sc & E & Hsc0 & Hsc1 & Hscm & Hfit & _);
    [reflexivity | assumption |].
  change maxSize with (JS.Fin 500). rewrite E. simpl JS.mul.
  exists sc. split; [reflexivity|].
  assert (Hsc0' : 0 <= sc) by now apply Qlt_le_weak.
  split; [assumption|]. split; [assumption|].
  split.
  { apply Qle_trans with (m * sc).
    - now apply Qmult_le_compat_r.
    - now rewrite Qmult_comm. }
  split.
  { apply Qle_trans with (m * sc).
    - now apply Qmult_le_compat_r.
    - now rewrite Qmult_comm. }
  intros Hw5 Hh5. apply Hfit. destruct Hmax as [-> | ->]; assumption.
Qed.

Lemma scaled_down (x sc : Q) :
  0 < x -> 0 < sc -> sc <= 1 -> 0 <= x * sc /\ x * sc <= x.
Proof.
  intros Hx Hsc0 Hsc1. split.
  - apply Qmult_le_0_compat; now apply Qlt_le_weak.
  - apply Qle_trans with (1 * x).
    + rewrite Qmult_comm. apply Qmult_le_compat_r;
        [assumption | now apply Qlt_le_weak].
    + rewrite Qmult_1_l. apply Qle_refl.
Qed.

Lemma within_tolerance (x : Q) : x <= 500 -> x <= 500 + (1 # 1000000).
Proof.
  intros H. apply Qle_trans with (500 + 0).
  - now rewrite Qplus_0_r.
  - apply Qplus_le_r. discriminate.
Qed.

(** X1.  For a positive numeric width and height, [computeSize] never
    enlarges: it returns a width and a height that are not negative and
    not above the ones it started from, that do not exceed [maxSize]
    (500) by more than the rounding of the two operations (bounded here
    by 0.000001), and that are the width and height themselves when
    neither exceeds 500. *)
Theorem computeSize_never_enlarges (element : option Element)
    (options : Options.t) (w h : Q) :
  let size := requested element options in
  isNumeric (fst size) = true -> isNumeric (snd size) = true ->
  ToNumber' (fst size) = JS.Fin w -> ToNumber' (snd size) = JS.Fin h ->
  0 < w -> 0 < h ->
  exists w' h' : Q,
    computeSize' element options
    = (VNumber (JS.Fin w'), VNumber (JS.Fin h')) /\
    0 <= w' /\ w' <= w /\ 0 <= h' /\ h' <= h /\
    w' <= 500 + (1 # 1000000) /\ h' <= 500 + (1 # 1000000) /\
    (w <= 500 -> h <= 500 -> w' == w /\ h' == h).
Proof.
  intros size Hnw Hnh Hw Hh Hw0 Hh0.
  destruct (computeSize_scaled element options Hnw Hnh Hw Hh Hw0 Hh0)
    as (sc & E & Hsc0 & Hsc1 & Hw5 & Hh5 & Hfit).
  destruct (scaled_down Hw0 Hsc0 Hsc1) as [Hwlo Hwhi].
  destruct (scaled_down Hh0 Hsc0 Hsc1) as [Hhlo Hhhi].
  exists (w * sc), (h * sc). split; [exact E|].
  repeat (split; [assumption|]).
  split; [now apply within_tolerance|].
  split; [now apply within_tolerance|].
  intros Hw500 Hh500. rewrite (Hfit Hw500 Hh500). split; ring.
Qed.

(** X2.  [computeSize] always returns two numbers; when the width or the
    height it starts from is not numeric, they are the default width and
    height of [Flag], 1.8 and 1.2, whatever the other one is. *)
Theorem computeSize_falls_back (element : option Element)
    (options : Options.t) :
  (exists a b : JS.num,
     computeSize' element options = (VNumber a, VNumber b)) /\
  (let size := requested element options in
   isNumeric (fst size) && isNumeric (snd size) = false ->
   computeSize' element options
   = (VNumber (dec 18 10), VNumber (dec 12 10))).
Proof.
  rewrite computeSize_unfold. cbv zeta.
  destruct (isNumeric (fst (requested element options))
            && isNumeric (snd (requested element options))).
  - split; [eauto | discriminate].
  - split; [|reflexivity]. now exists (dec 18 10), (dec 12 10).
Qed.

End MoreSizeFacts.

(** ** Rounding *)

Lemma Qfloor_half (z : Z) : Qfloor (inject_Z z + (1 # 2)) = z.
Proof.
  unfold Qfloor, Qplus, inject_Z. simpl.
  symmetry. apply (Z.div_unique _ _ _ 1); lia.
Qed.

Lemma Qfloor_nonneg (x : Q) : 0 <= x -> (0 <= Qfloor x)%Z.
Proof. intros H. apply Qfloor_resp_le in H. exact H. Qed.

Lemma Qfloor_lt (x : Q) (z : Z) : x < inject_Z z -> (Qfloor x < z)%Z.
Proof.
  intros H. rewrite Zlt_Qlt.
  apply Qle_lt_trans with x; [apply Qfloor_le | exact H].
Qed.

Section ScaleImageFacts.

Variable StringToNumber : string -> JS.num.

Local Abbreviation ToNumber' := (ToNumber StringToNumber).
Local Abbreviation scaleImage' := (scaleImage StringToNumber).

Lemma scaled_dimension (s : Z) (sc : Q) :
  (0 <= s)%Z -> sc <= 1 ->
  let d := Qfloor (inject_Z s * sc + (1 # 2)) in
  (d <= s)%Z /\ (0 <= sc -> (0 <= d)%Z) /\ (sc == 1 -> d = s).
Proof.
  intros Hs Hsc d. subst d.
  assert (Hs' : 0 <= inject_Z s)
    by (change 0 with (inject_Z 0); now rewrite <- Zle_Qle).
  split; [|split].
  - rewrite <- (Qfloor_half s) at 2. apply Qfloor_resp_le.
    apply Qplus_le_l. apply Qle_trans with (1 * inject_Z s).
    + rewrite Qmult_comm. now apply Qmult_le_compat_r.
    + rewrite Qmult_1_l. apply Qle_refl.
  - intros Hsc0. apply Qfloor_nonneg.
    apply Qle_trans with (0 + (1 # 2)); [discriminate|].
    apply Qplus_le_l. now apply Qmult_le_0_compat.
  - intros E. rewrite <- (Qfloor_half s) at 2. apply Qfloor_comp.
    rewrite E. ring.
Qed.


End ScaleImageFacts.

Section RoundingFacts.

Variable particle : Type.
Variable StringToNumber : string -> JS.num.
Variable gridParticle : JS.num -> JS.num -> particle.

Local Abbreviation ToNumber' := (ToNumber StringToNumber).
Local Abbreviation cloth_of := (buildCloth StringToNumber gridParticle).

Lemma rounded_count_monotone (w1 w2 r : Q) :
  0 < r -> w1 <= w2 ->
  (Z.max 1 (Qfloor (w1 / r + (1 # 2)))
   <= Z.max 1 (Qfloor (w2 / r + (1 # 2))))%Z.
Proof.
  intros Hr Hw.
  assert (H : (Qfloor (w1 / r + (1 # 2)) <= Qfloor (w2 / r + (1 # 2)))%Z).
  { apply Qfloor_resp_le. apply Qplus_le_l. unfold Qdiv.
    apply Qmult_le_compat_r; [assumption|].
    apply Qinv_le_0_compat. now apply Qlt_le_weak. }
  lia.
Qed.

Lemma rounded_count_small (w r : Q) :
  0 < r -> 2 * w <= r -> Z.max 1 (Qfloor (w / r + (1 # 2))) = 1%Z.
Proof.
  intros Hr Hsmall.
  assert (H : (Qfloor (w / r + (1 # 2)) <= 1)%Z).
  { change 1%Z with (Qfloor ((1 # 2) + (1 # 2))).
    apply Qfloor_resp_le. apply Qplus_le_l.
    apply Qle_shift_div_r; [assumption|].
    apply Qmult_le_l with 2; [reflexivity|].
    setoid_replace (2 * ((1 # 2) * r)) with r by ring. exact Hsmall. }
  lia.
Qed.

(** X6.  For one positive rest distance, [buildCloth] never gives a
    larger width or height fewer segments than a smaller one, and an
    extent of at most half the rest distance gets one segment. *)
Theorem buildCloth_monotone (options1 options2 : Options.t)
    (w1 w2 h1 h2 r : Q) :
  ToNumber' (prop (Options.width options1)) = JS.Fin w1 ->
  ToNumber' (prop (Options.width options2)) = JS.Fin w2 ->
  ToNumber' (prop (Options.height options1)) = JS.Fin h1 ->
  ToNumber' (prop (Options.height options2)) = JS.Fin h2 ->
  ToNumber' (prop (Options.restDistance options1)) = JS.Fin r ->
  ToNumber' (prop (Options.restDistance options2)) = JS.Fin r ->
  0 < r ->
  let c1 := cloth_of options1 in
  let c2 := cloth_of options2 in
  (w1 <= w2 -> JS.le (xSegments c1) (xSegments c2) = true) /\
  (h1 <= h2 -> JS.le (ySegments c1) (ySegments c2) = true) /\
  (2 * w1 <= r -> xSegments c1 = JS.one) /\
  (2 * h1 <= r -> ySegments c1 = JS.one).
Proof.
  intros Hw1 Hw2 Hh1 Hh2 Hr1 Hr2 Hr c1 c2.
  assert (Er : Qeq_bool r 0 = false).
  { destruct (Qeq_bool r 0) eqn:E; [|reflexivity].
    apply Qeq_bool_iff in E. rewrite E in Hr. now apply Qlt_irrefl in Hr. }
  subst c1 c2. unfold buildCloth. simpl xSegments. simpl ySegments.
  rewrite Hw1, Hw2, Hh1, Hh2, Hr1, Hr2.
  rewrite !(fun x => @segments_finite x r Er).
  split; [|split; [|split]].
  - intros Hle. rewrite JSFacts.le_of_Z. apply Z.leb_le.
    now apply rounded_count_monotone.
  - intros Hle. rewrite JSFacts.le_of_Z. apply Z.leb_le.
    now apply rounded_count_monotone.
  - intros Hsmall. now rewrite rounded_count_small.
  - intros Hsmall. now rewrite rounded_count_small.
Qed.

End RoundingFacts.

(** ** Pins *)

Lemma in_stride_from_unit (k : nat) (z : Z) :
  In z (stride_from 0 1 k) <-> (0 <= z < Z.of_nat k)%Z.
Proof.
  unfold stride_from. rewrite in_map_iff. split.
  - intros (j & <- & Hj). apply in_seq in Hj. lia.
  - intros Hz. exists (Z.to_nat z). split; [lia|]. apply in_seq. lia.
Qed.

Lemma in_downTo1 (n z : Z) :
  (0 <= n)%Z -> In z (downTo1 n) <-> (1 <= z <= n)%Z.
Proof.
  intros Hn. unfold downTo1, stride_from. rewrite in_map_iff. split.
  - intros (j & <- & Hj). apply in_seq in Hj. lia.
  - intros Hz. exists (Z.to_nat (n - z)). split; [lia|]. apply in_seq. lia.
Qed.

Lemma length_everyNth (n s : Z) :
  length (everyNth n s) = (Z.to_nat (n / s) + 1)%nat.
Proof. unfold everyNth, stride_from. now rewrite length_map, length_seq. Qed.

Lemma everyNth_head (n s : Z) :
  exists l, everyNth n s = 0%Z :: l.
Proof.
  unfold everyNth. rewrite Nat.add_1_r, stride_from_S. eauto.
Qed.

Section MorePinFacts.

Variable particle : Type.
Variable StringToNumber : string -> JS.num.
Variable isNumeric : value -> bool.

Local Abbreviation effectiveSpacing' :=
  (effectiveSpacing StringToNumber isNumeric).
Local Abbreviation pin' :=
  (pin (particle := particle) StringToNumber isNumeric).
Local Abbreviation Flag_pin' :=
  (Flag_pin (particle := particle) StringToNumber isNumeric).


(** The spacing of a call that gives none is 1, whatever [isNumeric]
    says of the default. *)
Lemma default_spacing (es : option edges_value) :
  effectiveSpacing' (Some {| edges := es; spacing := None |}) = JS.of_Z 1.
Proof.
  unfold effectiveSpacing, ensureValidSpacing. simpl.
  now destruct (isNumeric (VNumber JS.one)).
Qed.

Lemma pin_left_by_default (fuel : nat) (c : Cloth particle) (X Y : Z)
    (pins : list particle) :
  integerGrid c X Y ->
  (Z.to_nat (Z.max X Y) + 1 < fuel)%nat ->
  pin' fuel c pins
    (Some {| edges := Some (EdgesArray [IsSide LEFT]); spacing := None |})
  = Some (pins ++ selection c X Y 1 (IsSide LEFT)).
Proof.
  intros Hgrid Hfuel.
  set (options := Some {| edges := Some (EdgesArray [IsSide LEFT]);
                          spacing := None |}).
  change (pin' fuel c pins options)
    with (for_index [IsSide LEFT]
            (fun edge pins =>
               pinEdge fuel c pins edge (effectiveSpacing' options))
            0 1 pins).
  unfold options. rewrite default_spacing. cbn [for_index nth_error].
  rewrite (pinEdge_selection pins (IsSide LEFT) Hgrid) by (lia || assumption).
  reflexivity.
Qed.

Hypothesis isNumeric_finite :
  forall v, isNumeric v = true ->
  exists q : Q, ToNumber StringToNumber v = JS.Fin q.

(** X8.  Pinning one edge of [n] segments with spacing [s] adds
    [n / s + 1] particles (integer division), the first being the one at
    index 0 of the edge: every particle of the edge for spacing 1, and
    only that first one when the spacing exceeds [n]. *)
Theorem pin_edge_count (fuel : nat) (c : Cloth particle) (X Y : Z)
    (pins : list particle) (side : Side) (sp : option value) :
  integerGrid c X Y ->
  (Z.to_nat (Z.max X Y) + 1 < fuel)%nat ->
  let options :=
    Some {| edges := Some (EdgesString (IsSide side)); spacing := sp |} in
  let n := match side with TOP | BOTTOM => X | LEFT | RIGHT => Y end in
  let first :=
    match side with
    | TOP => particleAt c (JS.of_Z 0) (JS.of_Z Y)
    | LEFT | BOTTOM => particleAt c (JS.of_Z 0) (JS.of_Z 0)
    | RIGHT => particleAt c (JS.of_Z X) (JS.of_Z 0)
    end in
  exists (s : Z) (rest : list particle),
    (1 <= s)%Z /\ effectiveSpacing' options = JS.of_Z s /\
    pin' fuel c pins options = Some (pins ++ first :: rest) /\
    length (first :: rest) = (Z.to_nat (n / s) + 1)%nat /\
    (s = 1%Z -> length (first :: rest) = (Z.to_nat n + 1)%nat) /\
    ((n < s)%Z -> rest = []).
Proof.
  intros Hgrid Hfuel options n first.
  destruct (pin_selected StringToNumber isNumeric isNumeric_finite pins options Hgrid Hfuel)
    as (s & Hs & Es & Hpin).
  destruct Hgrid as (_ & _ & HX & HY).
  assert (Hn : (0 <= n)%Z) by (subst n; destruct side; assumption).
  assert (Hsel : exists rest,
             selected c X Y s options = first :: rest /\
             length (first :: rest) = (Z.to_nat (n / s) + 1)%nat).
  { unfold selected, options. simpl assign_pin. simpl edges. cbv iota.
    subst n first.
    destruct side; unfold selection;
      match goal with
      | |- context [everyNth ?m s] =>
          destruct (everyNth_head m s) as [l El];
          pose proof (length_everyNth m s) as Hlen;
          rewrite El in Hlen |- *
      end;
      simpl map; eexists; (split; [reflexivity|]);
      simpl length in *; rewrite length_map; lia. }
  destruct Hsel as (rest & Hsel & Hlen).
  exists s, rest. rewrite Hsel in Hpin.
  repeat (split; [assumption|]). split.
  - intros ->. rewrite Hlen. now rewrite Z.div_1_r.
  - intros Hns. rewrite Z.div_small in Hlen by lia.
    simpl in Hlen. destruct rest; [reflexivity | discriminate].
Qed.

Lemma selection_within_grid (c : Cloth particle) (X Y s : Z)
    (edge : side_value) (p : particle) :
  (0 <= X)%Z -> (0 <= Y)%Z -> (1 <= s)%Z ->
  In p (selection c X Y s edge) ->
  exists i j : Z,
    p = particleAt c (JS.of_Z i) (JS.of_Z j) /\
    (0 <= i <= X)%Z /\ (0 <= j <= Y)%Z /\
    (i = 0 \/ i = X \/ j = 0 \/ j = Y)%Z.
Proof.
  intros HX HY Hs.
  destruct edge as [[| | |] | v]; unfold selection;
    try (rewrite in_map_iff; intros (k & <- & Hk);
         apply everyNth_spec in Hk; [|assumption|assumption]);
    try contradiction.
  - exists k, Y. repeat split; auto; lia.
  - exists 0%Z, k. repeat split; auto; lia.
  - exists k, 0%Z. repeat split; auto; lia.
  - exists X, k. repeat split; auto; lia.
Qed.

(** X9.  Whatever its options, a [pin] call on a grid of [X] by [Y]
    segments only adds particles of the grid, and only particles of its
    border: each is [particleAt(i, j)] for integers [0 <= i <= X] and
    [0 <= j <= Y] with [i] or [j] at an end of its range. *)
Theorem pin_stays_on_border (fuel : nat) (c : Cloth particle) (X Y : Z)
    (pins : list particle) (options : option PinOptions) :
  integerGrid c X Y ->
  (Z.to_nat (Z.max X Y) + 1 < fuel)%nat ->
  exists new : list particle,
    pin' fuel c pins options = Some (pins ++ new) /\
    forall p, In p new ->
      exists i j : Z,
        p = particleAt c (JS.of_Z i) (JS.of_Z j) /\
        (0 <= i <= X)%Z /\ (0 <= j <= Y)%Z /\
        (i = 0 \/ i = X \/ j = 0 \/ j = Y)%Z.
Proof.
  intros Hgrid Hfuel.
  destruct (pin_selected StringToNumber isNumeric isNumeric_finite pins options Hgrid Hfuel)
    as (s & Hs & Es & Hpin).
  destruct Hgrid as (_ & _ & HX & HY).
  eexists. split; [exact Hpin|].
  intros p. unfold selected.
  destruct (edges (assign_pin pin_defaults options)) as [[e | es |]|];
    try contradiction.
  - now apply selection_within_grid.
  - rewrite in_flat_map. intros (e & _ & Hp).
    now apply selection_within_grid with (s := s) (edge := e).
Qed.

(** X11.  [unpin] followed by [pin] leaves exactly the particles the
    call selects, while a [pin] call repeated with the same options
    appends its selection a second time. *)
Theorem unpin_then_pin (fuel : nat) (flag : Flag particle) (X Y : Z)
    (options : option PinOptions) :
  integerGrid (cloth flag) X Y ->
  (Z.to_nat (Z.max X Y) + 1 < fuel)%nat ->
  exists s : Z,
    (1 <= s)%Z /\ effectiveSpacing' options = JS.of_Z s /\
    let sel := selected (cloth flag) X Y s options in
    Flag_pin' fuel (Flag_unpin flag) options
    = Some {| cloth := cloth flag; pins := sel;
              lengthConstraints := lengthConstraints flag |} /\
    match Flag_pin' fuel flag options with
    | Some flag1 => Flag_pin' fuel flag1 options
    | None => None
    end
    = Some {| cloth := cloth flag; pins := pins flag ++ sel ++ sel;
              lengthConstraints := lengthConstraints flag |}.
Proof.
  intros Hgrid Hfuel.
  destruct (effectiveSpacing_integer StringToNumber isNumeric isNumeric_finite options)
    as (s & Hs & Es).
  assert (Hpin : forall pins,
            pin' fuel (cloth flag) pins options
            = Some (pins ++ selected (cloth flag) X Y s options)).
  { intros pins.
    destruct (pin_selected StringToNumber isNumeric isNumeric_finite pins options Hgrid Hfuel)
      as (s' & _ & Es' & H).
    rewrite Es in Es'. apply JSFacts.of_Z_inj in Es'. now subst s'. }
  exists s. split; [assumption|]. split; [assumption|].
  intros sel. split.
  - unfold Flag_pin, Flag_unpin. simpl cloth. simpl pins.
    now rewrite Hpin.
  - unfold Flag_pin. rewrite Hpin. simpl cloth. simpl pins.
    rewrite Hpin. simpl lengthConstraints. now rewrite <- app_assoc.
Qed.

End MorePinFacts.

Section ConstructorFacts.

Variable particle : Type.
Variable StringToNumber : string -> JS.num.
Variable isNumeric : value -> bool.
Variable gridParticle : JS.num -> JS.num -> particle.

Local Abbreviation new_Flag' :=
  (new_Flag StringToNumber isNumeric gridParticle).
Local Abbreviation cloth_of := (buildCloth StringToNumber gridParticle).

(** X10.  A flag constructed from options without [pin] has its whole
    left edge pinned, particle after particle from row 0 to row
    [ySegments], and no length constraint. *)
Theorem new_Flag_pins_left_edge (fuel : nat) (options : Options.t)
    (X Y : Z) :
  Options.pin options = None ->
  let c := cloth_of (Options.assign Flag_defaults options) in
  integerGrid c X Y ->
  (Z.to_nat (Z.max X Y) + 1 < fuel)%nat ->
  new_Flag' fuel options
  = Some {| cloth := c;
            pins := map (fun j => gridParticle (JS.of_Z 0) (JS.of_Z j))
                      (stride_from 0 1 (Z.to_nat Y + 1));
            lengthConstraints := [] |}.
Proof.
  intros Hpin c Hgrid Hfuel.
  unfold new_Flag, Flag_pin. simpl cloth. simpl pins.
  simpl lengthConstraints. fold c.
  replace (Options.pin (Options.assign Flag_defaults options))
    with (Some {| edges := Some (EdgesArray [IsSide LEFT]);
                  spacing := None |})
    by (unfold Options.assign; simpl Options.pin; now rewrite Hpin).
  rewrite (pin_left_by_default StringToNumber isNumeric [] Hgrid Hfuel).
  simpl app. unfold selection, everyNth. rewrite Z.div_1_r.
  reflexivity.
Qed.

End ConstructorFacts.

(** ** Length constraints *)

Section MoreLengthConstraintFacts.

Variable particle : Type.

(** X12.  [setLengthConstraints] replaces the stored constraints: the
    ones stored before play no part in the result, and for a side other
    than left and top (right, bottom, or a value that is no side) the
    list is left empty. *)
Theorem setLengthConstraints_replaces (fuel : nat) (flag : Flag particle) :
  let cleared :=
    Some {| cloth := cloth flag; pins := pins flag;
            lengthConstraints := [] |} in
  setLengthConstraints fuel flag (IsSide RIGHT) = cleared /\
  setLengthConstraints fuel flag (IsSide BOTTOM) = cleared /\
  (forall v, setLengthConstraints fuel flag (NotSide v) = cleared) /\
  (forall side cs,
     setLengthConstraints fuel
       {| cloth := cloth flag; pins := pins flag; lengthConstraints := cs |}
       side
     = setLengthConstraints fuel flag side).
Proof. repeat split. Qed.

(** X13.  On a grid of [X] by [Y] segments every constraint that
    [setLengthConstraints] stores joins two particles of the grid: for
    the left side the particles at [(u, v)] and [(u + 1, v)] with
    [0 <= u], [u + 1 <= X] and [0 <= v <= Y]; for the top side those at
    [(u, v)] and [(u, v - 1)] with [0 <= u <= X], [0 <= v - 1] and
    [v <= Y]; its target length is the rest distance of the cloth. *)
Theorem lengthConstraints_within_grid (fuel : nat) (flag : Flag particle)
    (X Y : Z) :
  integerGrid (cloth flag) X Y ->
  (Z.to_nat (Z.max X Y) + 1 < fuel)%nat ->
  let c := cloth flag in
  (exists flag',
     setLengthConstraints fuel flag (IsSide LEFT) = Some flag' /\
     forall k, In k (lengthConstraints flag') ->
       exists u v : Z,
         (0 <= u /\ u + 1 <= X)%Z /\ (0 <= v <= Y)%Z /\
         p1 k = particleAt c (JS.of_Z u) (JS.of_Z v) /\
         p2 k = particleAt c (JS.of_Z (u + 1)) (JS.of_Z v) /\
         targetDistance k = restDistance c) /\
  (exists flag',
     setLengthConstraints fuel flag (IsSide TOP) = Some flag' /\
     forall k, In k (lengthConstraints flag') ->
       exists u v : Z,
         (0 <= u <= X)%Z /\ (0 <= v - 1 /\ v <= Y)%Z /\
         p1 k = particleAt c (JS.of_Z u) (JS.of_Z v) /\
         p2 k = particleAt c (JS.of_Z u) (JS.of_Z (v - 1)) /\
         targetDistance k = restDistance c).
Proof.
  intros Hgrid Hfuel c. pose proof Hgrid as (_ & _ & HX & HY).
  split; eexists.
  - split; [now apply setLengthConstraints_left with (X := X) (Y := Y)|].
    simpl lengthConstraints. intros k. unfold hoistToFly.
    rewrite in_flat_map. intros (v & Hv & Hk).
    apply in_map_iff in Hk. destruct Hk as (u & <- & Hu).
    apply in_stride_from_unit in Hv. apply in_stride_from_unit in Hu.
    exists u, v. repeat split; try reflexivity; lia.
  - split; [now apply setLengthConstraints_top with (X := X) (Y := Y)|].
    simpl lengthConstraints. intros k. unfold topToBottom.
    rewrite in_flat_map. intros (u & Hu & Hk).
    apply in_map_iff in Hk. destruct Hk as (v & <- & Hv).
    apply in_stride_from_unit in Hu. apply in_downTo1 in Hv; [|assumption].
    exists u, v. repeat split; try reflexivity; lia.
Qed.

End MoreLengthConstraintFacts.

(** ** Degenerate segment counts *)

Lemma for_loop_runs_on {S : Type} cond next (body : JS.num -> S -> option S) :
  (forall q, cond (JS.Fin q) = true) ->
  (forall q, exists q', next (JS.Fin q) = JS.Fin q') ->
  (forall i s, exists s', body i s = Some s') ->
  forall fuel q s, for_loop fuel cond next body (JS.Fin q) s = None.
Proof.
  intros Hcond Hnext Hbody. induction fuel as [|fuel IH]; intros q s.
  - reflexivity.
  - simpl. rewrite Hcond. destruct (Hbody (JS.Fin q) s) as [s' ->].
    destruct (Hnext q) as [q' ->]. apply IH.
Qed.

Section DegenerateFacts.

Variable particle : Type.

Lemma loop_to_infinity (fuel : nat) (a : Q) (g : JS.num -> particle)
    (pins : list particle) :
  for_loop fuel (fun i => JS.le i JS.PInf) (fun i => JS.add i (JS.Fin a))
    (fun i pins => Some (pins ++ [g i])) JS.zero pins = None.
Proof.
  apply for_loop_runs_on.
  - reflexivity.
  - intros q. now exists (q + a).
  - intros i s. eauto.
Qed.

(** X15.  The loops of [pinEdge] are bounded by the segment counts of the
    cloth alone: when the count along an edge is [Infinity] (as for a
    zero rest distance) pinning that edge with a finite spacing never
    returns, and when it is NaN the edge gets no pin at all. *)
Theorem pinEdge_degenerate_count (fuel : nat) (c : Cloth particle)
    (pins : list particle) :
  (xSegments c = JS.PInf ->
   forall a, pinEdge fuel c pins (IsSide TOP) (JS.Fin a) = None /\
             pinEdge fuel c pins (IsSide BOTTOM) (JS.Fin a) = None) /\
  (ySegments c = JS.PInf ->
   forall a, pinEdge fuel c pins (IsSide LEFT) (JS.Fin a) = None /\
             pinEdge fuel c pins (IsSide RIGHT) (JS.Fin a) = None) /\
  (xSegments c = JS.NaN ->
   forall s, pinEdge (S fuel) c pins (IsSide TOP) s = Some pins /\
             pinEdge (S fuel) c pins (IsSide BOTTOM) s = Some pins) /\
  (ySegments c = JS.NaN ->
   forall s, pinEdge (S fuel) c pins (IsSide LEFT) s = Some pins /\
             pinEdge (S fuel) c pins (IsSide RIGHT) s = Some pins).
Proof.
  repeat split; unfold pinEdge; rewrite H;
    try apply loop_to_infinity; reflexivity.
Qed.

End DegenerateFacts.

(** ** simulate *)

Section MoreSimulateFacts.

Variable particle : Type.
Variable particle_eq_dec : forall a b : particle, {a = b} + {a <> b}.
Variable Vector3 : Type.
Variable Cloth_simulate :
  Cloth particle -> JS.num -> World particle Vector3 -> World particle Vector3.
Variable resolve :
  FixedConstraint particle -> World particle Vector3 ->
  World particle Vector3.

Local Abbreviation simulate' :=
  (simulate particle_eq_dec Cloth_simulate resolve).

(** The state the pin loop produces, particle by particle. *)
Lemma pin_loop_state (pins : list particle) (w : World particle Vector3)
    (q : particle) :
  fold_left (fun w p => pinParticle particle_eq_dec p w) pins w q
  = if in_dec particle_eq_dec q pins then atOriginal (w q) else w q.
Proof.
  destruct (pin_loop particle_eq_dec pins w q) as (Ho & Hin & Hout).
  destruct (in_dec particle_eq_dec q pins) as [Hq | Hq].
  - destruct (Hin Hq) as [Hpos Hprev]. unfold atOriginal.
    destruct (fold_left _ pins w q) as [a b o]. simpl in *.
    now subst.
  - now apply Hout.
Qed.

(** X14.  For a flag without length constraints, [simulate] returns the
    particles as the cloth left them, except that every particle in the
    list of pins is at rest at its original; only which particles are in
    the list matters, not their order nor how often they occur. *)
Theorem simulate_without_length_constraints (flag : Flag particle)
    (deltaTime : JS.num) (w : World particle Vector3) :
  lengthConstraints flag = [] ->
  let integrated := Cloth_simulate (cloth flag) deltaTime w in
  exists w',
    simulate' flag deltaTime w = Some w' /\
    (forall q,
       w' q = if in_dec particle_eq_dec q (pins flag)
              then atOriginal (integrated q) else integrated q) /\
    (forall flag2,
       cloth flag2 = cloth flag -> lengthConstraints flag2 = [] ->
       (forall q, In q (pins flag2) <-> In q (pins flag)) ->
       exists w2,
         simulate' flag2 deltaTime w = Some w2 /\
         forall q, w2 q = w' q).
Proof.
  intros Hcs integrated. eexists. split; [|split].
  - rewrite simulate_steps, Hcs. reflexivity.
  - intros q. simpl fold_left. unfold simulate_pinned.
    apply pin_loop_state.
  - intros flag2 Hcloth Hcs2 Hmem. eexists. split.
    + rewrite simulate_steps, Hcs2. reflexivity.
    + intros q. simpl fold_left. unfold simulate_pinned.
      rewrite !pin_loop_state, Hcloth.
      destruct (in_dec particle_eq_dec q (pins flag2)) as [H2 | H2],
               (in_dec particle_eq_dec q (pins flag)) as [H1 | H1];
        try reflexivity.
      * apply Hmem in H2. contradiction.
      * apply Hmem in H1. contradiction.
Qed.

End MoreSimulateFacts.

(** ** The arguments of the flag *)

Section MoreMediaFacts.

Variable StringToNumber : string -> JS.num.
Variable isNumeric : value -> bool.
Variable getAngleOfSide : side_value -> value.

Local Abbreviation flagArgs' :=
  (flagArgs StringToNumber isNumeric getAngleOfSide).

(** X16.  When the width and the height [computeSize] starts from are
    positive numbers, the flag is constructed with a width and a height
    that are not negative, that do not exceed 500 by more than rounding
    (bounded here by 0.000001), and that are not above the width and
    height started from, taken in this order for a horizontal flag and
    exchanged for a vertical one; they are those very numbers when
    neither exceeds 500. *)
Theorem flagArgs_never_enlarged (element : option Element)
    (options : Options.t) (w h : Q) :
  let settings := Options.assign defaults options in
  let size := requestedSize StringToNumber isNumeric element settings in
  isNumeric (fst size) = true -> isNumeric (snd size) = true ->
  ToNumber StringToNumber (fst size) = JS.Fin w ->
  ToNumber StringToNumber (snd size) = JS.Fin h ->
  0 < w -> 0 < h ->
  exists a b : Q,
    Options.width (flagArgs' element options) = Some (VNumber (JS.Fin a)) /\
    Options.height (flagArgs' element options) = Some (VNumber (JS.Fin b)) /\
    0 <= a /\ a <= 500 + (1 # 1000000) /\
    0 <= b /\ b <= 500 + (1 # 1000000) /\
    (isVertical settings = false ->
     a <= w /\ b <= h /\ (w <= 500 -> h <= 500 -> a == w /\ b == h)) /\
    (isVertical settings = true ->
     a <= h /\ b <= w /\ (w <= 500 -> h <= 500 -> a == h /\ b == w)).
Proof.
  intros settings size Hnw Hnh Hw Hh Hw0 Hh0.
  destruct (computeSize_scaled StringToNumber isNumeric element settings
              Hnw Hnh Hw Hh Hw0 Hh0)
    as (sc & E & Hsc0 & Hsc1 & Hw5 & Hh5 & Hfit).
  destruct (scaled_down Hw0 Hsc0 Hsc1) as [Hwlo Hwhi].
  destruct (scaled_down Hh0 Hsc0 Hsc1) as [Hhlo Hhhi].
  apply within_tolerance in Hw5. apply within_tolerance in Hh5.
  assert (Hsame : w <= 500 -> h <= 500 -> w * sc == w /\ h * sc == h).
  { intros H1 H2. rewrite (Hfit H1 H2). split; ring. }
  destruct (flagArgs_extents StringToNumber isNumeric getAngleOfSide
              element options) as (Ewidth & Eheight & _).
  fold settings in Ewidth, Eheight. rewrite E in Ewidth, Eheight.
  rewrite Ewidth, Eheight.
  destruct (isVertical settings); simpl fst; simpl snd.
  - exists (h * sc), (w * sc). split; [reflexivity|]. split; [reflexivity|].
    repeat (split; [assumption|]).
    split; [discriminate|]. intros _.
    split; [assumption|]. split; [assumption|].
    intros H1 H2. destruct (Hsame H1 H2). now split.
  - exists (w * sc), (h * sc). split; [reflexivity|]. split; [reflexivity|].
    repeat (split; [assumption|]).
    split; [|discriminate]. intros _.
    split; [assumption|]. split; [assumption|]. exact Hsame.
Qed.

End MoreMediaFacts.

(** ** Pins and length constraints of the same side *)

Section HoistFacts.

Variable particle : Type.
Variable StringToNumber : string -> JS.num.
Variable isNumeric : value -> bool.

Hypothesis isNumeric_finite :
  forall v, isNumeric v = true ->
  exists q : Q, ToNumber StringToNumber v = JS.Fin q.

Local Abbreviation Flag_pin' :=
  (Flag_pin (particle := particle) StringToNumber isNumeric).

(** Pinning one edge, then setting the length constraints from a side. *)
Lemma pin_then_constrain (fuel : nat) (flag : Flag particle) (X Y : Z)
    (side : Side) (sp : option value) :
  integerGrid (cloth flag) X Y ->
  (Z.to_nat (Z.max X Y) + 1 < fuel)%nat ->
  exists (s : Z) (flag1 : Flag particle),
    (1 <= s)%Z /\
    Flag_pin' fuel (Flag_unpin flag)
      (Some {| edges := Some (EdgesString (IsSide side)); spacing := sp |})
    = Some flag1 /\
    cloth flag1 = cloth flag /\
    pins flag1 = selection (cloth flag) X Y s (IsSide side).
Proof.
  intros Hgrid Hfuel.
  destruct (pin_selected StringToNumber isNumeric isNumeric_finite []
              (Some {| edges := Some (EdgesString (IsSide side));
                       spacing := sp |}) Hgrid Hfuel)
    as (s & Hs & _ & Hpin).
  exists s. eexists. split; [assumption|]. split.
  - unfold Flag_pin, Flag_unpin. simpl cloth. simpl pins. rewrite Hpin.
    reflexivity.
  - split; reflexivity.
Qed.


End HoistFacts.

(** ** Examples for the further properties *)

Lemma computeSize_never_enlarges_witness :
  exists w' h' : Q,
    computeSize NaNString isFiniteNumber None
      (sizeOptions (JS.of_Z 1000) (JS.of_Z 500) JS.one)
    = (VNumber (JS.Fin w'), VNumber (JS.Fin h')) /\
    w' <= 1000 /\ h' <= 500 /\ w' <= 500 + (1 # 1000000).
Proof.
  destruct (@computeSize_never_enlarges NaNString isFiniteNumber None
              (sizeOptions (JS.of_Z 1000) (JS.of_Z 500) JS.one)
              1000 500 eq_refl eq_refl eq_refl eq_refl eq_refl eq_refl)
    as (w' & h' & E & _ & Hw & _ & Hh & Hcap & _).
  exists w', h'. repeat (split; [assumption|]). assumption.
Defined.

Lemma computeSize_falls_back_witness :
  computeSize NaNString isFiniteNumber None
    (sizeOptions (JS.of_Z 3) JS.NaN JS.one)
  = (VNumber (dec 18 10), VNumber (dec 12 10)).
Proof.
  apply (proj2 (computeSize_falls_back NaNString isFiniteNumber None
                  (sizeOptions (JS.of_Z 3) JS.NaN JS.one))).
  reflexivity.
Defined.


Lemma buildCloth_monotone_witness :
  JS.le
    (xSegments (buildCloth NaNString gridRef_of
                  (sizeOptions (dec 18 10) (dec 5 100) (dec 12 100))))
    (xSegments (buildCloth NaNString gridRef_of
                  (sizeOptions (dec 19 10) (dec 12 10) (dec 12 100))))
  = true /\
  ySegments (buildCloth NaNString gridRef_of
               (sizeOptions (dec 18 10) (dec 5 100) (dec 12 100)))
  = JS.one.
Proof.
  destruct (@buildCloth_monotone gridRef NaNString gridRef_of
              (sizeOptions (dec 18 10) (dec 5 100) (dec 12 100))
              (sizeOptions (dec 19 10) (dec 12 10) (dec 12 100))
              (18 # 10) (19 # 10) (5 # 100) (12 # 10) (12 # 100)
              eq_refl eq_refl eq_refl eq_refl eq_refl eq_refl eq_refl)
    as (Hx & _ & _ & Hy).
  split; [apply Hx | apply Hy]; discriminate.
Defined.

Lemma pin_edge_count_witness :
  exists rest : list gridRef,
    pin NaNString isFiniteNumber 10 (gridCloth 4 2) []
      (Some {| edges := Some (EdgesString (IsSide TOP));
               spacing := Some (VNumber (JS.of_Z 3)) |})
    = Some (at_ 0 2 :: rest) /\
    length (at_ 0 2 :: rest) = 2%nat.
Proof.
  destruct (@pin_edge_count gridRef NaNString isFiniteNumber
              isFiniteNumber_finite 10 (gridCloth 4 2) 4 2 [] TOP
              (Some (VNumber (JS.of_Z 3)))
              (integerGrid_gridCloth (x := 4) (y := 2) ltac:(lia) ltac:(lia))
              ltac:(simpl; lia))
    as (s & rest & _ & E & Hpin & Hlen & _).
  assert (Hs : s = 3%Z) by (apply JSFacts.of_Z_inj; rewrite <- E; reflexivity).
  subst s. exists rest. split; [exact Hpin | exact Hlen].
Defined.

Lemma pin_stays_on_border_witness :
  exists new : list gridRef,
    pin NaNString isFiniteNumber 5 (gridCloth 2 2) [at_ 1 1]
      (pinEdges [IsSide TOP; IsSide RIGHT]) = Some (at_ 1 1 :: new) /\
    ~ In (at_ 1 1) new.
Proof.
  destruct (@pin_stays_on_border gridRef NaNString isFiniteNumber
              isFiniteNumber_finite 5 (gridCloth 2 2) 2 2 [at_ 1 1]
              (pinEdges [IsSide TOP; IsSide RIGHT])
              (integerGrid_gridCloth (x := 2) (y := 2) ltac:(lia) ltac:(lia))
              ltac:(simpl; lia))
    as (new & Hpin & Hborder).
  exists new. split; [exact Hpin|].
  intros Hin. destruct (Hborder _ Hin) as (i & j & E & _ & _ & Hedge).
  injection E as Ei Ej. lia.
Defined.

Lemma new_Flag_pins_left_edge_witness :
  option_map (fun flag => pins flag)
    (new_Flag NaNString isFiniteNumber gridRef_of 20 Options.empty)
  = Some (map (at_ 0) [0; 1; 2; 3; 4; 5; 6; 7; 8; 9; 10]%Z).
Proof.
  rewrite (@new_Flag_pins_left_edge gridRef NaNString isFiniteNumber
             gridRef_of 20 Options.empty 15 10 eq_refl).
  - reflexivity.
  - repeat split; try reflexivity; lia.
  - simpl; lia.
Defined.

Lemma unpin_then_pin_witness :
  Flag_pin NaNString isFiniteNumber 5
    (Flag_unpin (gridFlag 1 1 [at_ 0 0; at_ 0 1]))
    (pinEdges [IsSide RIGHT])
  = Some (gridFlag 1 1 [at_ 1 0; at_ 1 1]).
Proof.
  destruct (@unpin_then_pin gridRef NaNString isFiniteNumber
              isFiniteNumber_finite 5 (gridFlag 1 1 [at_ 0 0; at_ 0 1]) 1 1
              (pinEdges [IsSide RIGHT])
              (integerGrid_gridCloth (x := 1) (y := 1) ltac:(lia) ltac:(lia))
              ltac:(simpl; lia))
    as (s & _ & E & Hreplace & _).
  assert (Hs : s = 1%Z) by (apply JSFacts.of_Z_inj; rewrite <- E; reflexivity).
  subst s. exact Hreplace.
Defined.

Lemma lengthConstraints_within_grid_witness :
  exists flag',
    setLengthConstraints 5 (gridFlag 2 1 []) (IsSide LEFT) = Some flag' /\
    forall k, In k (lengthConstraints flag') ->
      p1 k <> at_ 2 0 /\ p1 k <> at_ 2 1.
Proof.
  destruct (@lengthConstraints_within_grid gridRef 5 (gridFlag 2 1 []) 2 1
              (integerGrid_gridCloth (x := 2) (y := 1) ltac:(lia) ltac:(lia))
              ltac:(simpl; lia))
    as [(flag' & Hset & Hin) _].
  exists flag'. split; [exact Hset|].
  intros k Hk. destruct (Hin k Hk) as (u & v & Hu & _ & E1 & _).
  rewrite E1. split; intros E; injection E as Eu _; lia.
Defined.

Lemma simulate_without_length_constraints_witness :
  exists w',
    simulate gridRef_eq_dec (carried (vec_of (-3) 0 0))
      (resolve_spec (fun _ => false))
      (gridFlag 1 1 [at_ 0 0; at_ 0 0]) (dec 1 60) atRest = Some w' /\
    position (w' (at_ 0 0)) = vec_of 0 0 0 /\
    position (w' (at_ 1 0)) = vec_of (-2) 0 0.
Proof.
  destruct (@simulate_without_length_constraints gridRef gridRef_eq_dec vec
              (carried (vec_of (-3) 0 0)) (resolve_spec (fun _ => false))
              (gridFlag 1 1 [at_ 0 0; at_ 0 0]) (dec 1 60) atRest eq_refl)
    as (w' & Hsim & Hstate & _).
  exists w'. split; [exact Hsim|].
  rewrite !Hstate. split; reflexivity.
Defined.

Lemma pinEdge_degenerate_count_witness :
  pinEdge 1000
    (new_Cloth gridRef_of JS.PInf JS.PInf (VNumber JS.zero) JS.zero)
    [] (IsSide LEFT) JS.one = None.
Proof.
  destruct (@pinEdge_degenerate_count gridRef 1000
              (new_Cloth gridRef_of JS.PInf JS.PInf (VNumber JS.zero) JS.zero)
              [])
    as (_ & Hy & _).
  exact (proj1 (Hy eq_refl (inject_Z 1))).
Defined.

Lemma flagArgs_never_enlarged_witness :
  exists a b : Q,
    Options.width
      (flagArgs NaNString isFiniteNumber noAngle None
         (withOrientation
            (sizeOptions (JS.of_Z 300) (JS.of_Z 200) JS.one)
            (IsSide LEFT)))
    = Some (VNumber (JS.Fin a)) /\
    Options.height
      (flagArgs NaNString isFiniteNumber noAngle None
         (withOrientation
            (sizeOptions (JS.of_Z 300) (JS.of_Z 200) JS.one)
            (IsSide LEFT)))
    = Some (VNumber (JS.Fin b)) /\
    a == 200 /\ b == 300.
Proof.
  destruct (@flagArgs_never_enlarged NaNString isFiniteNumber noAngle None
              (withOrientation
                 (sizeOptions (JS.of_Z 300) (JS.of_Z 200) JS.one)
                 (IsSide LEFT))
              300 200 eq_refl eq_refl eq_refl eq_refl eq_refl eq_refl)
    as (a & b & Ea & Eb & _ & _ & _ & _ & _ & Hv).
  exists a, b. split; [exact Ea|]. split; [exact Eb|].
  apply (Hv eq_refl); discriminate.
Defined.

